(** * bookStore: the record store, the query engine and the log-level registry
    of [server.js], embedded in Rocq.

    The Express handlers are modelled as functions from the server state and
    the already-parsed request parameters to the new state and the response.
    A query-string parameter is an [option string]: [None] is JavaScript's
    [undefined], the value of a parameter that is absent, and a parameter is
    given at most once. The JSON body of [POST /book] is taken at the types
    of the data model: strings, numbers, a list of strings. Of the loggers
    the [level] that the two [/logs/level] handlers read and write is
    kept, and the log calls of a request are listed in the order they are
    made ([serve], further down); logging has no effect on the store. *)

From Stdlib Require Import List String Ascii ZArith QArith Bool Lia.
From Stdlib Require Import Permutation Sorted.
Import ListNotations.

Local Open Scope string_scope.
Local Open Scope Z_scope.

(** ** The JavaScript values and built-ins the handlers use *)

Module JS.

(** A JavaScript number: the value of a finite double is a rational, so the
    comparisons below are exact. A number read from a string is rounded to
    the nearest double ([nearest] below). Signed zero is one zero. *)
Inductive number : Type :=
  | NaN
  | NegInf
  | Fin (q : Q)
  | PosInf.

Definition ofZ (z : Z) : number := Fin (inject_Z z).

(** [a < b] on numbers; every comparison with [NaN] is false. *)
Definition lt (a b : number) : bool :=
  match a, b with
  | NaN, _ | _, NaN => false
  | _, NegInf => false
  | NegInf, _ => true
  | PosInf, _ => false
  | Fin _, PosInf => true
  | Fin x, Fin y => negb (Qle_bool y x)
  end.

Definition gt (a b : number) : bool := lt b a.

(** [a <= b]: false when either side is [NaN], otherwise [!(b < a)]. *)
Definition le (a b : number) : bool :=
  match a, b with
  | NaN, _ | _, NaN => false
  | _, _ => negb (lt b a)
  end.

Definition ge (a b : number) : bool := le b a.

(** [a === b] on numbers. *)
Definition eq (a b : number) : bool :=
  match a, b with
  | NegInf, NegInf | PosInf, PosInf => true
  | Fin x, Fin y => Qeq_bool x y
  | _, _ => false
  end.

(** *** Strings

    A string is a sequence of code units below 256 (the Basic Latin and
    Latin-1 blocks). *)

Definition code (c : ascii) : Z := Z.of_nat (nat_of_ascii c).

Definition between (lo hi : Z) (c : ascii) : bool :=
  (lo <=? code c) && (code c <=? hi).

(** The letters with a lower-case form: A to Z, and U+00C0 to U+00DE but
    for the multiplication sign U+00D7. *)
Definition lowerChar (c : ascii) : ascii :=
  if between 65 90 c || (between 192 222 c && negb (code c =? 215))
  then ascii_of_nat (nat_of_ascii c + 32) else c.

(** The letters with an upper-case form below 256: a to z, and U+00E0 to
    U+00FE but for the division sign U+00F7. *)
Definition upperChar (c : ascii) : ascii :=
  if between 97 122 c || (between 224 254 c && negb (code c =? 247))
  then ascii_of_nat (nat_of_ascii c - 32) else c.

Fixpoint mapString (f : ascii -> ascii) (s : string) : string :=
  match s with
  | EmptyString => EmptyString
  | String c r => String (f c) (mapString f r)
  end.

Definition toLowerCase : string -> string := mapString lowerChar.

(** The sharp s U+00DF becomes SS. The upper-case forms of U+00B5 and
    U+00FF are code units above 255: they stay as they are here. *)
Fixpoint toUpperCase (s : string) : string :=
  match s with
  | EmptyString => EmptyString
  | String c r =>
      if code c =? 223 then String "S" (String "S" (toUpperCase r))
      else String (upperChar c) (toUpperCase r)
  end.

(** [s.split(sep)] for a one-character separator: never the empty list,
    [split "," ""] is [[""]]. *)
Fixpoint split (sep : ascii) (s : string) : list string :=
  match s with
  | EmptyString => [EmptyString]
  | String c r =>
      if Ascii.eqb c sep then EmptyString :: split sep r
      else match split sep r with
           | [] => [String c EmptyString]
           | w :: ws => String c w :: ws
           end
  end.

(** [arr.includes(x)] on an array of strings. *)
Definition includes (arr : list string) (x : string) : bool :=
  existsb (String.eqb x) arr.

(** Truthiness of a query parameter: [undefined] and [""] are falsy. *)
Definition truthy (v : option string) : bool :=
  match v with
  | None => false
  | Some s => negb (String.eqb s "")
  end.

(** *** Reading numbers from strings *)

(** White space and line terminators: TAB, LF, VT, FF, CR, SP and the
    no-break space U+00A0. *)
Definition isWhiteSpace (c : ascii) : bool :=
  between 9 13 c || (code c =? 32) || (code c =? 160).

Fixpoint trimStart (l : list ascii) : list ascii :=
  match l with
  | c :: r => if isWhiteSpace c then trimStart r else l
  | [] => []
  end.

Definition trim (l : list ascii) : list ascii :=
  rev (trimStart (rev (trimStart l))).

(** *** The double nearest to a rational

    [a / d] rounded to an integer, a tie going to the even one; [0 <= a]
    and [0 < d]. *)
Definition roundHalfEven (a d : Z) : Z :=
  let q := a / d in
  let r := a mod d in
  if 2 * r <? d then q
  else if d <? 2 * r then q + 1
  else if Z.even q then q else q + 1.

(** [d * 2^l <= a], for [l] of either sign. *)
Definition atLeastPow2 (a d l : Z) : bool :=
  if 0 <=? l then d * 2 ^ l <=? a else d <=? a * 2 ^ (- l).

(** The number value of a rational: the nearest double, ties to the even
    significand. A double is [m * 2^e] with [m < 2^53] and [-1074 <= e];
    from [2^1024] on the result is an infinity. Integers up to [2^53] are
    doubles. *)
Definition nearest (x : Q) : number :=
  let n := Qnum x in
  let d := Z.pos (Qden x) in
  if n =? 0 then Fin 0
  else if (d =? 1) && (Z.abs n <=? 2 ^ 53) then Fin x
  else
    let a := Z.abs n in
    let l := Z.log2 a - Z.log2 d in
    let b := if atLeastPow2 a d l then l else l - 1 in
    let e := Z.max (b - 52) (-1074) in
    let m := if 0 <=? e then roundHalfEven a (d * 2 ^ e)
             else roundHalfEven (a * 2 ^ (- e)) d in
    if (1024 <=? b) || ((e =? 971) && (m =? 2 ^ 53))
    then (if n <? 0 then NegInf else PosInf)
    else if 0 <=? e then Fin (inject_Z (Z.sgn n * m * 2 ^ e))
    else Fin (Qred (Qmake (Z.sgn n * m) (Z.to_pos (2 ^ (- e))))).

(** The value of [c] as a digit in radix [r], if it is one. *)
Definition digit (r : Z) (c : ascii) : option Z :=
  let v := if between 48 57 c then code c - 48
           else if between 97 122 c then code c - 87
           else if between 65 90 c then code c - 55
           else 36 in
  if v <? r then Some v else None.

(** The longest prefix of radix-[r] digits, and what follows it. *)
Fixpoint digits (r : Z) (l : list ascii) : list Z * list ascii :=
  match l with
  | c :: rest =>
      match digit r c with
      | Some v => let (ds, tl) := digits r rest in (v :: ds, tl)
      | None => ([], l)
      end
  | [] => ([], [])
  end.

Definition valueOf (r : Z) (ds : list Z) : Z :=
  fold_left (fun acc d => acc * r + d) ds 0.

Definition signOf (l : list ascii) : Z * list ascii :=
  match l with
  | "-"%char :: r => (-1, r)
  | "+"%char :: r => (1, r)
  | _ => (1, l)
  end.

(** [parseInt(s)] with no radix argument: leading white space, a sign, an
    optional [0x], then the longest run of digits; [NaN] when that run is
    empty. What follows the digits is ignored. The answer is the double
    nearest to the integer read. *)
Definition parseIntChars (l : list ascii) : number :=
  let (sign, l1) := signOf (trimStart l) in
  let (radix, l2) :=
    match l1 with
    | "0"%char :: "x"%char :: r | "0"%char :: "X"%char :: r => (16, r)
    | _ => (10, l1)
    end in
  match fst (digits radix l2) with
  | [] => NaN
  | ds => nearest (inject_Z (sign * valueOf radix ds))
  end.

(** [parseInt(v)]: the argument is first converted to a string, and
    [undefined] becomes ["undefined"]. *)
Definition parseInt (v : option string) : number :=
  match v with
  | None => parseIntChars (list_ascii_of_string "undefined")
  | Some s => parseIntChars (list_ascii_of_string s)
  end.

(** [m * 10^k] as a number. *)
Definition scale10 (m k : Z) : number :=
  if 0 <=? k then nearest (inject_Z (m * 10 ^ k))
  else nearest (Qmake m (Z.to_pos (10 ^ (- k)))).

(** A whole string of radix-[r] digits, at least one. *)
Definition wholeInt (r : Z) (l : list ascii) : number :=
  match digits r l with
  | ((_ :: _) as ds, []) => nearest (inject_Z (valueOf r ds))
  | _ => NaN
  end.

(** An unsigned decimal literal: digits, an optional fraction, an optional
    exponent, and nothing else. *)
Definition unsignedDecimal (sign : Z) (l : list ascii) : number :=
  let (ip, r1) := digits 10 l in
  let (fp, r2) :=
    match r1 with
    | "."%char :: r => digits 10 r
    | _ => ([], r1)
    end in
  match (ip ++ fp)%list with
  | [] => NaN
  | ds =>
      let m := sign * valueOf 10 ds in
      let k := - Z.of_nat (List.length fp) in
      match r2 with
      | [] => scale10 m k
      | "e"%char :: r | "E"%char :: r =>
          let (es, r3) := signOf r in
          match digits 10 r3 with
          | ((_ :: _) as ed, []) => scale10 m (k + es * valueOf 10 ed)
          | _ => NaN
          end
      | _ => NaN
      end
  end.

(** [Number(s)] for a string: white space is trimmed at both ends, the empty
    string is 0, and anything that is not a numeric literal is [NaN]; the
    answer is the double nearest to the value of the literal. *)
Definition stringToNumber (s : string) : number :=
  match trim (list_ascii_of_string s) with
  | [] => ofZ 0
  | "0"%char :: "x"%char :: r | "0"%char :: "X"%char :: r => wholeInt 16 r
  | "0"%char :: "o"%char :: r | "0"%char :: "O"%char :: r => wholeInt 8 r
  | "0"%char :: "b"%char :: r | "0"%char :: "B"%char :: r => wholeInt 2 r
  | l =>
      let (sign, r) := signOf l in
      if String.eqb (string_of_list_ascii r) "Infinity"
      then (if sign <? 0 then NegInf else PosInf)
      else unsignedDecimal sign r
  end.

(** [ToNumber] of a query parameter; [undefined] is [NaN]. *)
Definition toNumber (v : option string) : number :=
  match v with
  | None => NaN
  | Some s => stringToNumber s
  end.

(** [n == v] for a number [n] and a query parameter [v]: the string is
    converted to a number; a number is never equal to [undefined]. *)
Definition looseEq (n : number) (v : option string) : bool :=
  match v with
  | None => false
  | Some s => eq n (stringToNumber s)
  end.

(** [n++] on a counter holding a non-negative integer: integers are exact in
    a double up to [2^53], and [2^53 + 1] rounds back to [2^53]. *)
Definition succ (n : Z) : Z := if n <? 2 ^ 53 then n + 1 else n.

End JS.

(** ** The data model *)

Module Book.
(** A stored record: the object [newBook] of [POST /book]. *)
Record t : Type := mk {
  id : Z;
  title : string;
  author : string;
  year : JS.number;
  price : JS.number;
  genres : list string
}.

(** [book.price = v] *)
Definition withPrice (v : JS.number) (b : t) : t :=
  mk (id b) (title b) (author b) (year b) v (genres b).
End Book.

Module View.
(** The object [GET /books] builds for each record of its answer. *)
Record t : Type := mk {
  id : Z;
  title : string;
  author : string;
  price : JS.number;
  year : JS.number;
  genres : list string
}.

Definition project (book : Book.t) : t :=
  mk (Book.id book) (Book.title book) (Book.author book)
     (Book.price book) (Book.year book) (Book.genres book).
End View.

Module Query.
(** The parameters [filterBooks] reads from [req.query]. *)
Record t : Type := mk {
  author : option string;
  priceBiggerThan : option string;
  priceLessThan : option string;
  yearBiggerThan : option string;
  yearLessThan : option string;
  genres : option string
}.

Definition empty : t := mk None None None None None None.
End Query.

(** The globals [books] and [currentId]. *)
Record state : Type := mkState {
  books : list Book.t;
  currentId : Z
}.

Definition initial : state := mkState [] 1.

Definition validGenres : list string :=
  ["SCI_FI"; "NOVEL"; "HISTORY"; "MANGA"; "ROMANCE"; "PROFESSIONAL"].

(** The failures of the handlers: each is a status code and a fixed message
    in the source. [InternalError] is the 500 answer of the error-handling
    middleware when a handler throws. *)
Inductive error : Type :=
  | DuplicateTitle
  | InvalidYear
  | InvalidPrice
  | NotFound
  | InvalidGenre
  | UnknownChannel
  | InvalidSeverity
  | InternalError.

Definition status (e : error) : Z :=
  match e with
  | DuplicateTitle | InvalidYear | InvalidPrice => 409
  | NotFound => 404
  | InvalidGenre | UnknownChannel | InvalidSeverity => 400
  | InternalError => 500
  end.

Inductive result (A : Type) : Type :=
  | Ok (a : A)
  | Err (e : error).
Arguments Ok {A} a.
Arguments Err {A} e.

Definition mapResult {A B : Type} (f : A -> B) (r : result A) : result B :=
  match r with
  | Ok a => Ok (f a)
  | Err e => Err e
  end.

(** ** The record store *)

(** [book.id == id] for the query parameter [id]. *)
Definition hasId (id : option string) (book : Book.t) : bool :=
  JS.looseEq (JS.ofZ (Book.id book)) id.

Definition sameTitle (title : string) (book : Book.t) : bool :=
  String.eqb (JS.toLowerCase (Book.title book)) (JS.toLowerCase title).

(** [POST /book] *)
Definition create (s : state) (title author : string)
    (year price : JS.number) (genres : list string) : state * result Z :=
  match find (sameTitle title) (books s) with
  | Some _ => (s, Err DuplicateTitle)
  | None =>
      if JS.lt year (JS.ofZ 1940) || JS.gt year (JS.ofZ 2100)
      then (s, Err InvalidYear)
      else if JS.le price (JS.ofZ 0)
      then (s, Err InvalidPrice)
      else
        let newBook :=
          Book.mk (currentId s) title author year price genres in
        (mkState (books s ++ [newBook])%list (JS.succ (currentId s)),
         Ok (Book.id newBook))
  end.

(** [GET /book] *)
Definition getBook (s : state) (id : option string) : result Book.t :=
  match find (hasId id) (books s) with
  | None => Err NotFound
  | Some book => Ok book
  end.

(** The assignment [book.price = v] on the object [find] returned: it is
    the first element of the array that satisfies [p]. *)
Fixpoint assignPrice (p : Book.t -> bool) (v : JS.number)
    (l : list Book.t) : list Book.t :=
  match l with
  | [] => []
  | b :: r =>
      if p b then Book.withPrice v b :: r else b :: assignPrice p v r
  end.

(** [PUT /book] *)
Definition updatePrice (s : state) (id price : option string)
    : state * result JS.number :=
  match find (hasId id) (books s) with
  | None => (s, Err NotFound)
  | Some book =>
      if JS.le (JS.toNumber price) (JS.ofZ 0)
      then (s, Err InvalidPrice)
      else
        let oldPrice := Book.price book in
        (mkState (assignPrice (hasId id) (JS.parseInt price) (books s))
                 (currentId s),
         Ok oldPrice)
  end.

(** [arr.findIndex(p)], -1 when no element satisfies [p]. *)
Fixpoint findIndex {A : Type} (p : A -> bool) (l : list A) : Z :=
  match l with
  | [] => -1
  | x :: r =>
      if p x then 0
      else let i := findIndex p r in if i =? -1 then -1 else i + 1
  end.

(** What [arr.splice(i, 1)] leaves in [arr], for an index [i >= 0]. *)
Definition splice1 {A : Type} (i : Z) (l : list A) : list A :=
  (firstn (Z.to_nat i) l ++ skipn (Z.to_nat (i + 1)) l)%list.

(** [DELETE /book] *)
Definition deleteBook (s : state) (id : option string) : state * result Z :=
  let bookIndex := findIndex (hasId id) (books s) in
  if bookIndex =? -1 then (s, Err NotFound)
  else
    let s' := mkState (splice1 bookIndex (books s)) (currentId s) in
    (s', Ok (Z.of_nat (List.length (books s')))).

(** ** The query engine *)

(** The array [filteredBooks] refers to: the array of the store itself, or
    a new array made by [filter]. *)
Inductive bookArray : Type :=
  | StoreArray
  | NewArray (l : list Book.t).

Definition elements (s : state) (a : bookArray) : list Book.t :=
  match a with
  | StoreArray => books s
  | NewArray l => l
  end.

Definition arrayFilter (s : state) (p : Book.t -> bool) (a : bookArray)
    : bookArray :=
  NewArray (filter p (elements s a)).

(** [if (v) { filteredBooks = filteredBooks.filter(p(v)) }] *)
Definition filterIf (s : state) (v : option string)
    (p : string -> Book.t -> bool) (a : bookArray) : bookArray :=
  match v with
  | Some x => if JS.truthy v then arrayFilter s (p x) a else a
  | None => a
  end.

Definition genreList (genres : string) : list string := JS.split "," genres.

Definition someGenreIn (tags : list string) (book : Book.t) : bool :=
  existsb (fun genre => JS.includes tags genre) (Book.genres book).

Definition authorIs (author : string) (book : Book.t) : bool :=
  String.eqb (JS.toLowerCase (Book.author book)) (JS.toLowerCase author).

Definition priceAtLeast (x : string) (book : Book.t) : bool :=
  JS.ge (Book.price book) (JS.parseInt (Some x)).
Definition priceAtMost (x : string) (book : Book.t) : bool :=
  JS.le (Book.price book) (JS.parseInt (Some x)).
Definition yearAtLeast (x : string) (book : Book.t) : bool :=
  JS.ge (Book.year book) (JS.parseInt (Some x)).
Definition yearAtMost (x : string) (book : Book.t) : bool :=
  JS.le (Book.year book) (JS.parseInt (Some x)).

(** The genre step of [filterBooks]: it throws on a tag outside
    [validGenres]. *)
Definition filterGenres (s : state) (genres : option string)
    (a : bookArray) : result bookArray :=
  match genres with
  | Some g =>
      if JS.truthy genres then
        if negb (forallb (fun genre => JS.includes validGenres genre)
                         (genreList g))
        then Err InvalidGenre
        else Ok (arrayFilter s (someGenreIn (genreList g)) a)
      else Ok a
  | None => Ok a
  end.

(** The steps of [filterBooks] after the genre step. *)
Definition filterRest (s : state) (query : Query.t) (a : bookArray)
    : bookArray :=
  let a := filterIf s (Query.author query) authorIs a in
  let a := filterIf s (Query.priceBiggerThan query) priceAtLeast a in
  let a := filterIf s (Query.priceLessThan query) priceAtMost a in
  let a := filterIf s (Query.yearBiggerThan query) yearAtLeast a in
  filterIf s (Query.yearLessThan query) yearAtMost a.

Definition filterBooks (s : state) (query : Query.t) : result bookArray :=
  let filteredBooks := StoreArray in
  match filterGenres s (Query.genres query) filteredBooks with
  | Err e => Err e
  | Ok filteredBooks => Ok (filterRest s query filteredBooks)
  end.

(** [GET /books/total] *)
Definition filteredCount (s : state) (query : Query.t) : state * result Z :=
  match filterBooks s query with
  | Err e => (s, Err e)
  | Ok filteredBooks =>
      (s, Ok (Z.of_nat (List.length (elements s filteredBooks))))
  end.

Section Listing.

(** [a.localeCompare(b)]: the collation order is the host's, so it is a
    parameter of the model. *)
Variable localeCompare : string -> string -> Z.

Definition compareTitles (a b : Book.t) : Z :=
  localeCompare (JS.toLowerCase (Book.title a)) (JS.toLowerCase (Book.title b)).

(** The titles of [a] and [b] are in order, case ignored. *)
Definition titleOrder (a b : Book.t) : Prop := compareTitles a b <= 0.

(** [arr.sort(cmp)] is a stable sort: for a comparator that is a consistent
    order the result is the one of this insertion sort, where an element
    goes before the first one it does not compare greater than. *)
Fixpoint insert (x : Book.t) (l : list Book.t) : list Book.t :=
  match l with
  | [] => [x]
  | y :: r => if compareTitles x y <=? 0 then x :: l else y :: insert x r
  end.

Fixpoint sort (l : list Book.t) : list Book.t :=
  match l with
  | [] => []
  | x :: r => insert x (sort r)
  end.

(** [arr.sort(cmp)] sorts the array object in place: when [filteredBooks]
    is the array of the store, the store is what gets sorted. *)
Definition sortInPlace (s : state) (a : bookArray) : state :=
  match a with
  | StoreArray => mkState (sort (books s)) (currentId s)
  | NewArray _ => s
  end.

(** [GET /books] *)
Definition filteredList (s : state) (query : Query.t)
    : state * result (list View.t) :=
  match filterBooks s query with
  | Err e => (s, Err e)
  | Ok filteredBooks =>
      let sorted := sort (elements s filteredBooks) in
      (sortInPlace s filteredBooks, Ok (map View.project sorted))
  end.

(** *** Sequences of requests *)

Inductive op : Type :=
  | Create (title author : string) (year price : JS.number)
           (genres : list string)
  | Get (id : option string)
  | UpdatePrice (id price : option string)
  | Delete (id : option string)
  | FilteredCount (query : Query.t)
  | FilteredList (query : Query.t).

Inductive response : Type :=
  | Created (r : result Z)
  | Fetched (r : result Book.t)
  | Updated (r : result JS.number)
  | Deleted (r : result Z)
  | Counted (r : result Z)
  | Listed (r : result (list View.t)).

Definition step (s : state) (o : op) : state * response :=
  match o with
  | Create t a y p g => let (s', r) := create s t a y p g in (s', Created r)
  | Get i => (s, Fetched (getBook s i))
  | UpdatePrice i p => let (s', r) := updatePrice s i p in (s', Updated r)
  | Delete i => let (s', r) := deleteBook s i in (s', Deleted r)
  | FilteredCount q => let (s', r) := filteredCount s q in (s', Counted r)
  | FilteredList q => let (s', r) := filteredList s q in (s', Listed r)
  end.

Fixpoint run (s : state) (ops : list op) : state * list response :=
  match ops with
  | [] => (s, [])
  | o :: rest =>
      let (s1, r) := step s o in
      let (s2, rs) := run s1 rest in
      (s2, r :: rs)
  end.

End Listing.

(** A comparator to run the model with: code units in order, a proper
    prefix first. On words of lower-case ASCII letters this is the
    alphabetical order. *)
Definition codeUnitCompare (a b : string) : Z :=
  match String.compare a b with
  | Lt => -1
  | Eq => 0
  | Gt => 1
  end.

(** ** The log-level registry *)

(** The [level] property of the two winston loggers. *)
Record loggers : Type := mkLoggers {
  requestLogger : string;
  booksLogger : string
}.

Definition initialLoggers : loggers := mkLoggers "info" "info".

Inductive logger : Type := TheRequestLogger | TheBooksLogger.

(** The [if]/[else if]/[else] on [loggerName] that both handlers start
    with. *)
Definition selectLogger (loggerName : option string) : option logger :=
  match loggerName with
  | Some n =>
      if String.eqb n "request-logger" then Some TheRequestLogger
      else if String.eqb n "books-logger" then Some TheBooksLogger
      else None
  | None => None
  end.

Definition level (r : loggers) (l : logger) : string :=
  match l with
  | TheRequestLogger => requestLogger r
  | TheBooksLogger => booksLogger r
  end.

Definition assignLevel (r : loggers) (l : logger) (v : string) : loggers :=
  match l with
  | TheRequestLogger => mkLoggers v (booksLogger r)
  | TheBooksLogger => mkLoggers (requestLogger r) v
  end.

Definition validLevels : list string :=
  ["error"; "warn"; "info"; "http"; "debug"].

(** [GET /logs/level] *)
Definition getLevel (r : loggers) (loggerName : option string)
    : loggers * result string :=
  match selectLogger loggerName with
  | None => (r, Err UnknownChannel)
  | Some l => (r, Ok (JS.toUpperCase (level r l)))
  end.

(** [PUT /logs/level]. With no [logger-level] parameter
    [loggerLevel.toLowerCase()] throws. *)
Definition setLevel (r : loggers) (loggerName loggerLevel : option string)
    : loggers * result string :=
  match selectLogger loggerName with
  | None => (r, Err UnknownChannel)
  | Some l =>
      match loggerLevel with
      | None => (r, Err InternalError)
      | Some v =>
          if negb (JS.includes validLevels (JS.toLowerCase v))
          then (r, Err InvalidSeverity)
          else
            let r' := assignLevel r l (JS.toLowerCase v) in
            (r', Ok (JS.toUpperCase (level r' l)))
      end
  end.

(** ** The vocabulary of the specification *)

Module Num.
(** The order of the numbers as a relation: [NaN] is not comparable. *)
Definition Le (a b : JS.number) : Prop :=
  match a, b with
  | JS.NaN, _ | _, JS.NaN => False
  | JS.NegInf, _ => True
  | _, JS.PosInf => True
  | JS.Fin x, JS.Fin y => (x <= y)%Q
  | _, _ => False
  end.

Definition Lt (a b : JS.number) : Prop :=
  match a, b with
  | JS.NaN, _ | _, JS.NaN => False
  | _, JS.NegInf => False
  | JS.NegInf, _ => True
  | JS.PosInf, _ => False
  | JS.Fin _, JS.PosInf => True
  | JS.Fin x, JS.Fin y => (x < y)%Q
  end.

Definition Positive (a : JS.number) : Prop := Lt (JS.ofZ 0) a.
End Num.

(** Two strings that differ at most by the case of their letters. *)
Definition sameIgnoringCase (a b : string) : Prop :=
  JS.toLowerCase a = JS.toLowerCase b.

(** A live record already has this title, up to case. *)
Definition titleTaken (s : state) (title : string) : Prop :=
  exists b, In b (books s) /\ sameIgnoringCase (Book.title b) title.

(** The year lies in [1940, 2100], both ends included. *)
Definition yearInRange (year : JS.number) : Prop :=
  Num.Le (JS.ofZ 1940) year /\ Num.Le year (JS.ofZ 2100).

(** The four numeric bounds of a query. *)
Inductive bound : Type :=
  | PriceBiggerThan
  | PriceLessThan
  | YearBiggerThan
  | YearLessThan.

Definition getBound (k : bound) (q : Query.t) : option string :=
  match k with
  | PriceBiggerThan => Query.priceBiggerThan q
  | PriceLessThan => Query.priceLessThan q
  | YearBiggerThan => Query.yearBiggerThan q
  | YearLessThan => Query.yearLessThan q
  end.

(** The query [q] with the bound [k] replaced by [v]. *)
Definition setBound (k : bound) (v : option string) (q : Query.t) : Query.t :=
  match k with
  | PriceBiggerThan =>
      Query.mk (Query.author q) v (Query.priceLessThan q)
               (Query.yearBiggerThan q) (Query.yearLessThan q) (Query.genres q)
  | PriceLessThan =>
      Query.mk (Query.author q) (Query.priceBiggerThan q) v
               (Query.yearBiggerThan q) (Query.yearLessThan q) (Query.genres q)
  | YearBiggerThan =>
      Query.mk (Query.author q) (Query.priceBiggerThan q)
               (Query.priceLessThan q) v (Query.yearLessThan q) (Query.genres q)
  | YearLessThan =>
      Query.mk (Query.author q) (Query.priceBiggerThan q)
               (Query.priceLessThan q) (Query.yearBiggerThan q) v
               (Query.genres q)
  end.

(** One criterion as a test on a record: a falsy parameter accepts all. *)
Definition passes (v : option string) (p : string -> Book.t -> bool)
    (b : Book.t) : bool :=
  match v with
  | Some x => if JS.truthy v then p x b else true
  | None => true
  end.

(** The criteria other than the genres, as one test. *)
Definition passesRest (q : Query.t) (b : Book.t) : bool :=
  passes (Query.author q) authorIs b
  && passes (Query.priceBiggerThan q) priceAtLeast b
  && passes (Query.priceLessThan q) priceAtMost b
  && passes (Query.yearBiggerThan q) yearAtLeast b
  && passes (Query.yearLessThan q) yearAtMost b.

(** The record has one of the requested tags. *)
Definition sharesGenre (tags : list string) (b : Book.t) : Prop :=
  exists t, In t (Book.genres b) /\ In t tags.

(** The record meets every criterion other than the genres that the query
    carries: the author up to case, and the four inclusive bounds. *)
Definition meetsRest (q : Query.t) (b : Book.t) : Prop :=
  (forall a, Query.author q = Some a -> a <> "" ->
     sameIgnoringCase (Book.author b) a) /\
  (forall x, Query.priceBiggerThan q = Some x -> x <> "" ->
     Num.Le (JS.parseInt (Some x)) (Book.price b)) /\
  (forall x, Query.priceLessThan q = Some x -> x <> "" ->
     Num.Le (Book.price b) (JS.parseInt (Some x))) /\
  (forall x, Query.yearBiggerThan q = Some x -> x <> "" ->
     Num.Le (JS.parseInt (Some x)) (Book.year b)) /\
  (forall x, Query.yearLessThan q = Some x -> x <> "" ->
     Num.Le (Book.year b) (JS.parseInt (Some x))).

(** A successful creation among the responses. *)
Definition isCreated (r : response) : bool :=
  match r with
  | Created (Ok _) => true
  | _ => false
  end.

(** A genres field as the data model wants it: not empty, every tag in the
    catalog. *)
Definition goodGenres (g : list string) : Prop :=
  g <> [] /\ Forall (fun t => In t validGenres) g.

(** The request, if a creation, supplies such a genres field. *)
Definition suppliesGoodGenres (o : op) : Prop :=
  match o with
  | Create _ _ _ _ g => goodGenres g
  | _ => True
  end.

(** The two channel names. *)
Definition isChannel (name : option string) : Prop :=
  name = Some "request-logger" \/ name = Some "books-logger".

(** A level name that is, up to case, one of the five severities. *)
Definition isSeverity (lvl : string) : Prop :=
  exists v, In v validLevels /\ sameIgnoringCase lvl v.

(** ** The states a server goes through *)

(** The title of a record as the uniqueness test of [create] compares it. *)
Definition titleKey (b : Book.t) : string := JS.toLowerCase (Book.title b).

(** No two live records share a title, case ignored. *)
Definition distinctTitles (s : state) : Prop :=
  NoDup (map titleKey (books s)).

(** No two live records share an identifier. *)
Definition distinctIds (s : state) : Prop := NoDup (map Book.id (books s)).

(** Every live identifier was handed out: it lies between 1 and the
    counter. *)
Definition idsAllocated (s : state) : Prop :=
  Forall (fun b => 1 <= Book.id b < currentId s) (books s).

(** The request, if a creation, carries a year that is a number. *)
Definition yearIsNumber (o : op) : Prop :=
  match o with
  | Create _ _ y _ _ => y <> JS.NaN
  | _ => True
  end.

(** ** The criteria of a query, genres included *)

(** The genres criterion as a test on a record. *)
Definition passesGenres (q : Query.t) (b : Book.t) : bool :=
  passes (Query.genres q) (fun g => someGenreIn (genreList g)) b.

(** All the criteria as one test. *)
Definition passesAll (q : Query.t) (b : Book.t) : bool :=
  passesGenres q b && passesRest q b.

(** The record has a tag of the genres list, when the query carries one. *)
Definition meetsGenres (q : Query.t) (b : Book.t) : Prop :=
  forall g, Query.genres q = Some g -> g <> "" ->
    sharesGenre (genreList g) b.

(** The genres list of the query, when it carries one, names catalog tags
    only. *)
Definition genresValid (q : Query.t) : Prop :=
  forall g, Query.genres q = Some g -> g <> "" ->
    forall t, In t (genreList g) -> In t validGenres.

(** [v'] is the parameter [v], or is left out. *)
Definition sameOrDropped (v' v : option string) : Prop :=
  v' = v \/ JS.truthy v' = false.

(** The query [q'] is [q] with some criteria left out. *)
Definition dropsCriteria (q' q : Query.t) : Prop :=
  sameOrDropped (Query.author q') (Query.author q) /\
  sameOrDropped (Query.priceBiggerThan q') (Query.priceBiggerThan q) /\
  sameOrDropped (Query.priceLessThan q') (Query.priceLessThan q) /\
  sameOrDropped (Query.yearBiggerThan q') (Query.yearBiggerThan q) /\
  sameOrDropped (Query.yearLessThan q') (Query.yearLessThan q) /\
  sameOrDropped (Query.genres q') (Query.genres q).

(** ** Prices written as whole numbers *)

(** The parameter is a non-empty run of decimal digits. *)
Definition wholeNumber (x : string) : Prop :=
  x <> "" /\
  Forall (fun c => JS.between 48 57 c = true) (list_ascii_of_string x).

(** The integer such a parameter denotes. *)
Definition wholeValue (x : string) : Z :=
  JS.valueOf 10 (fst (JS.digits 10 (list_ascii_of_string x))).

(** ** Sequences of requests to the log-level registry *)

Inductive levelRequest : Type :=
  | GetLevel (loggerName : option string)
  | SetLevel (loggerName loggerLevel : option string).

Definition serveLevel (r : loggers) (q : levelRequest)
    : loggers * result string :=
  match q with
  | GetLevel n => getLevel r n
  | SetLevel n l => setLevel r n l
  end.

Fixpoint serveLevels (r : loggers) (qs : list levelRequest) : loggers :=
  match qs with
  | [] => r
  | q :: rest => serveLevels (fst (serveLevel r q)) rest
  end.

(** Both loggers are at one of the five levels. *)
Definition levelsValid (r : loggers) : Prop :=
  In (requestLogger r) validLevels /\ In (booksLogger r) validLevels.

(** ** The handlers with their log calls *)

(** A message is kept as the parts of its template literal: the literal
    turns a number into its decimal text and an absent parameter into
    ["undefined"]. [Unit16] is one code unit of the text, for those above
    255; [Thrown] is the [message] of an error a handler threw; [Elapsed]
    is the number of milliseconds the clock gave for the request. *)
Inductive part : Type :=
  | Text (s : string)
  | Unit16 (code : Z)
  | Number (n : JS.number)
  | Param (v : option string)
  | Thrown
  | Elapsed.

(** The logger methods the handlers call. *)
Inductive method : Type := LogError | LogInfo | LogDebug.

(** One call [logger.method(message, { requestId })]. *)
Record logCall : Type := mkCall {
  target : logger;
  severity : method;
  message : list part;
  requestId : Z
}.

(** [${arr.length}] *)
Definition lengthOf (n : nat) : part := Number (JS.ofZ (Z.of_nat n)).

Definition noSuchBook (id : option string) : list part :=
  [Text "Error: no such Book with id "; Param id].

Definition totalFound (n : nat) : list part :=
  [Text "Total Books found for requested filters is "; lengthOf n].

Section Logged.

Variable localeCompare : string -> string -> Z.

(** The value of the global [requestCounter] while the handler runs. *)
Variable requestCounter : Z.

Definition booksLogger_error (m : list part) : logCall :=
  mkCall TheBooksLogger LogError m requestCounter.
Definition booksLogger_info (m : list part) : logCall :=
  mkCall TheBooksLogger LogInfo m requestCounter.
Definition booksLogger_debug (m : list part) : logCall :=
  mkCall TheBooksLogger LogDebug m requestCounter.

(** [POST /book] *)
Definition postBook (s : state) (title author : string)
    (year price : JS.number) (genres : list string)
    : state * result Z * list logCall :=
  match find (sameTitle title) (books s) with
  | Some _ =>
      (s, Err DuplicateTitle,
       [booksLogger_error
          [Text "Error: Book with the title ["; Text title;
           Text "] already exists in the system"]])
  | None =>
      if JS.lt year (JS.ofZ 1940) || JS.gt year (JS.ofZ 2100)
      then
        (s, Err InvalidYear,
         [booksLogger_error
            [Text "Error: Can"; Unit16 8217;
             Text "t create new Book that its year [";
             Number year;
             Text "] is not in the accepted range [1940 -> 2100]"]])
      else if JS.le price (JS.ofZ 0)
      then
        (s, Err InvalidPrice,
         [booksLogger_error
            [Text "Error: Can"; Unit16 8217;
             Text "t create new Book with negative price"]])
      else
        let newBook :=
          Book.mk (currentId s) title author year price genres in
        (mkState (books s ++ [newBook])%list (JS.succ (currentId s)),
         Ok (Book.id newBook),
         [booksLogger_info
            [Text "Creating new Book with Title ["; Text title; Text "]"];
          booksLogger_debug
            [Text "Currently there are "; lengthOf (List.length (books s));
             Text " Books in the system. New Book will be assigned with id ";
             Number (JS.ofZ (Book.id newBook))]])
  end.

(** [GET /books/total] *)
Definition getBooksTotal (s : state) (query : Query.t)
    : state * result Z * list logCall :=
  match filterBooks s query with
  | Err e => (s, Err e, [])
  | Ok filteredBooks =>
      let n := List.length (elements s filteredBooks) in
      (s, Ok (Z.of_nat n), [booksLogger_info (totalFound n)])
  end.

(** [GET /books] *)
Definition getBooks (s : state) (query : Query.t)
    : state * result (list View.t) * list logCall :=
  match filterBooks s query with
  | Err e => (s, Err e, [])
  | Ok filteredBooks =>
      let sorted := sort localeCompare (elements s filteredBooks) in
      (sortInPlace localeCompare s filteredBooks,
       Ok (map View.project sorted),
       [booksLogger_info (totalFound (List.length sorted))])
  end.

(** [GET /book] *)
Definition getBookById (s : state) (id : option string)
    : state * result Book.t * list logCall :=
  match find (hasId id) (books s) with
  | None => (s, Err NotFound, [booksLogger_error (noSuchBook id)])
  | Some book =>
      (s, Ok book,
       [booksLogger_debug
          [Text "Fetching book id "; Param id; Text " details"]])
  end.

(** [PUT /book] *)
Definition putBook (s : state) (id price : option string)
    : state * result JS.number * list logCall :=
  match find (hasId id) (books s) with
  | None => (s, Err NotFound, [booksLogger_error (noSuchBook id)])
  | Some book =>
      if JS.le (JS.toNumber price) (JS.ofZ 0)
      then
        (s, Err InvalidPrice,
         [booksLogger_error
            [Text "Error: price update for book ["; Param id;
             Text "] must be a positive integer"]])
      else
        let oldPrice := Book.price book in
        (mkState (assignPrice (hasId id) (JS.parseInt price) (books s))
                 (currentId s),
         Ok oldPrice,
         [booksLogger_info
            [Text "Update Book id ["; Param id; Text "] price to ";
             Param price];
          booksLogger_debug
            [Text "Book ["; Text (Book.title book);
             Text "] price change: "; Number oldPrice; Text " --> ";
             Param price]])
  end.

(** [DELETE /book]; [deletedBook] is the element [splice] removes, and
    reading the title of no element throws. *)
Definition deleteBookById (s : state) (id : option string)
    : state * result Z * list logCall :=
  let bookIndex := findIndex (hasId id) (books s) in
  if bookIndex =? -1
  then (s, Err NotFound, [booksLogger_error (noSuchBook id)])
  else
    let s' := mkState (splice1 bookIndex (books s)) (currentId s) in
    match nth_error (books s) (Z.to_nat bookIndex) with
    | None => (s', Err InternalError, [])
    | Some deletedBook =>
        (s', Ok (Z.of_nat (List.length (books s'))),
         [booksLogger_info
            [Text "Removing book ["; Text (Book.title deletedBook); Text "]"];
          booksLogger_debug
            [Text "After removing book ["; Text (Book.title deletedBook);
             Text "] id: ["; Param id; Text "] there are ";
             lengthOf (List.length (books s'));
             Text " books in the system"]])
    end.

(** The handler of a request to the store, with its log calls. *)
Definition handle (s : state) (o : op) : state * response * list logCall :=
  match o with
  | Create t a y p g =>
      let '(s', r, l) := postBook s t a y p g in (s', Created r, l)
  | Get i => let '(s', r, l) := getBookById s i in (s', Fetched r, l)
  | UpdatePrice i p => let '(s', r, l) := putBook s i p in (s', Updated r, l)
  | Delete i => let '(s', r, l) := deleteBookById s i in (s', Deleted r, l)
  | FilteredCount q =>
      let '(s', r, l) := getBooksTotal s q in (s', Counted r, l)
  | FilteredList q => let '(s', r, l) := getBooks s q in (s', Listed r, l)
  end.

End Logged.

(** ** The server: the store, the levels and the request counter *)

Record server : Type := mkServer {
  store : state;
  levels : loggers;
  requestCounter : Z
}.

Definition started : server := mkServer initial initialLoggers 0.

Inductive request : Type :=
  | Health
  | Books (o : op)
  | Levels (q : levelRequest).

Inductive reply : Type :=
  | Healthy
  | FromBooks (r : response)
  | FromLevels (r : result string).

(** [req.path] *)
Definition path (q : request) : string :=
  match q with
  | Health => "/books/health"
  | Books (FilteredCount _) => "/books/total"
  | Books (FilteredList _) => "/books"
  | Books _ => "/book"
  | Levels _ => "/logs/level"
  end.

(** [req.method] *)
Definition verb (q : request) : string :=
  match q with
  | Books (Create _ _ _ _ _) => "POST"
  | Books (UpdatePrice _ _) | Levels (SetLevel _ _) => "PUT"
  | Books (Delete _) => "DELETE"
  | _ => "GET"
  end.

(** The first log call of the middleware. *)
Definition incoming (requestId : Z) (q : request) : logCall :=
  mkCall TheRequestLogger LogInfo
    [Text "Incoming request | #"; Number (JS.ofZ requestId);
     Text " | resource: "; Text (path q); Text " | HTTP Verb ";
     Text (JS.toUpperCase (verb q))]
    requestId.

(** The call the middleware makes on [finish], when the response has been
    sent; the duration is read off the clock. *)
Definition finished (requestId : Z) : logCall :=
  mkCall TheRequestLogger LogDebug
    [Text "request duration: "; Elapsed; Text "ms"] requestId.

(** The error-handling middleware, for an error thrown with the status
    still 200: it logs to the books logger when the path starts with
    [/book], to the request logger otherwise. *)
Definition internalError (requestCounter : Z) (q : request) : logCall :=
  mkCall (if String.prefix "/book" (path q)
          then TheBooksLogger else TheRequestLogger)
         LogError [Text "Error: "; Thrown] requestCounter.

Definition errorOf {A : Type} (r : result A) : option error :=
  match r with
  | Ok _ => None
  | Err e => Some e
  end.

Definition responseError (r : response) : option error :=
  match r with
  | Created r => errorOf r
  | Fetched r => errorOf r
  | Updated r => errorOf r
  | Deleted r => errorOf r
  | Counted r => errorOf r
  | Listed r => errorOf r
  end.

Definition replyError (a : reply) : option error :=
  match a with
  | Healthy => None
  | FromBooks r => responseError r
  | FromLevels r => errorOf r
  end.

(** What the error-handling middleware logs after the handler. *)
Definition afterHandler (requestCounter : Z) (q : request) (a : reply)
    : list logCall :=
  match replyError a with
  | Some InternalError => [internalError requestCounter q]
  | _ => []
  end.

(** The handler of a request. *)
Definition route (localeCompare : string -> string -> Z)
    (requestCounter : Z) (srv : server) (q : request)
    : server * reply * list logCall :=
  match q with
  | Health => (mkServer (store srv) (levels srv) requestCounter, Healthy, [])
  | Books o =>
      let '(s', r, l) := handle localeCompare requestCounter (store srv) o in
      (mkServer s' (levels srv) requestCounter, FromBooks r, l)
  | Levels lq =>
      let (r', a) := serveLevel (levels srv) lq in
      (mkServer (store srv) r' requestCounter, FromLevels a, [])
  end.

(** One request, from the middleware to the [finish] of its response: the
    new state, the answer, and the log calls made for it, in order. *)
Definition serve (localeCompare : string -> string -> Z)
    (srv : server) (q : request) : server * reply * list logCall :=
  let requestCounter := JS.succ (requestCounter srv) in
  let requestId := requestCounter in
  let '(srv', a, l) := route localeCompare requestCounter srv q in
  (srv', a,
   (incoming requestId q
      :: l ++ afterHandler requestCounter q a ++ [finished requestId])%list).

Fixpoint serveAll (localeCompare : string -> string -> Z)
    (srv : server) (qs : list request) : server * list logCall :=
  match qs with
  | [] => (srv, [])
  | q :: rest =>
      let '(srv1, _, l) := serve localeCompare srv q in
      let (srv2, ls) := serveAll localeCompare srv1 rest in
      (srv2, (l ++ ls)%list)
  end.

(** The log call is the first one of a request. *)
Definition isIncoming (c : logCall) : bool :=
  match target c, severity c with
  | TheRequestLogger, LogInfo => true
  | _, _ => false
  end.

(** 1, 2, ..., n *)
Definition firstNumbers (n : nat) : list Z := map Z.of_nat (seq 1 n).

(** ** What a sequence of answers tells *)

(** The identifiers the successful creations returned, in order. *)
Fixpoint createdIds (rs : list response) : list Z :=
  match rs with
  | [] => []
  | Created (Ok n) :: rest => n :: createdIds rest
  | _ :: rest => createdIds rest
  end.

(** A successful deletion among the responses. *)
Definition isDeleted (r : response) : bool :=
  match r with
  | Deleted (Ok _) => true
  | _ => false
  end.

(** ** Records and genres lists, for the statements on genres *)

(** The record [b'] is the record [b], but perhaps for its price. *)
Definition sameButPrice (b' b : Book.t) : Prop :=
  Book.id b' = Book.id b /\ Book.title b' = Book.title b /\
  Book.author b' = Book.author b /\ Book.year b' = Book.year b /\
  Book.genres b' = Book.genres b.

(** The genres parameter that lists the tags, separated by commas. *)
Definition commaSeparated (tags : list string) : string :=
  String.concat "," tags.

(** The tag holds no comma. *)
Definition noComma (t : string) : Prop :=
  ~ In ","%char (list_ascii_of_string t).

(** ** The built-ins on sample inputs *)

Example parseInt_12abc : JS.parseInt (Some "12abc") = JS.ofZ 12.
Proof. reflexivity. Qed.
Example parseInt_abc : JS.parseInt (Some "abc") = JS.NaN.
Proof. reflexivity. Qed.
Example parseInt_frac : JS.parseInt (Some "0.5") = JS.ofZ 0.
Proof. reflexivity. Qed.
Example parseInt_hex : JS.parseInt (Some " -0x1F") = JS.ofZ (-31).
Proof. reflexivity. Qed.
Example toNumber_frac : JS.toNumber (Some " 0.5 ") = JS.Fin (1 # 2).
Proof. reflexivity. Qed.
Example toNumber_exp : JS.toNumber (Some "1.5e3") = JS.ofZ 1500.
Proof. reflexivity. Qed.
Example toNumber_hex : JS.toNumber (Some "0x1f") = JS.ofZ 31.
Proof. reflexivity. Qed.
Example toNumber_signed_hex : JS.toNumber (Some "-0x1f") = JS.NaN.
Proof. reflexivity. Qed.
Example toNumber_dot : JS.toNumber (Some ".") = JS.NaN.
Proof. reflexivity. Qed.
Example toNumber_empty : JS.toNumber (Some "") = JS.ofZ 0.
Proof. reflexivity. Qed.
Example toNumber_abc : JS.toNumber (Some "12abc") = JS.NaN.
Proof. reflexivity. Qed.
Example toNumber_inf : JS.toNumber (Some "-Infinity") = JS.NegInf.
Proof. reflexivity. Qed.
Example split_tags : JS.split "," "SCI_FI,NOVEL" = ["SCI_FI"; "NOVEL"].
Proof. reflexivity. Qed.
Example lower_mixed : JS.toLowerCase "Dune II" = "dune ii".
Proof. reflexivity. Qed.

(** ** The order of the numbers *)

Lemma lt_iff (a b : JS.number) : JS.lt a b = true <-> Num.Lt a b.
Proof.
  destruct a as [| |x|], b as [| |y|]; simpl;
    try (split; [discriminate | contradiction]);
    try (split; trivial).
  - rewrite negb_true_iff. intros H. apply Qnot_le_lt. intros Hle.
    apply Qle_bool_iff in Hle. congruence.
  - intros H. apply negb_true_iff. destruct (Qle_bool y x) eqn:E; trivial.
    apply Qle_bool_iff in E. exfalso. exact (Qlt_not_le _ _ H E).
Qed.

Lemma le_iff (a b : JS.number) : JS.le a b = true <-> Num.Le a b.
Proof.
  destruct a as [| |x|], b as [| |y|]; simpl;
    try (split; [discriminate | contradiction]);
    try (split; trivial; fail).
  rewrite negb_involutive. apply Qle_bool_iff.
Qed.

(** Off [NaN] the order is total: [a < b] fails exactly when [b <= a]. *)
Lemma lt_false_iff (a b : JS.number) :
  a <> JS.NaN -> b <> JS.NaN -> (JS.lt a b = false <-> Num.Le b a).
Proof.
  intros Ha Hb. rewrite <- le_iff.
  destruct a as [| |x|], b as [| |y|]; simpl; try congruence;
    try (split; congruence).
  rewrite negb_involutive, negb_false_iff. reflexivity.
Qed.

Lemma find_sameTitle_some (s : state) (title : string) :
  titleTaken s title <-> exists b, find (sameTitle title) (books s) = Some b.
Proof.
  unfold titleTaken, sameIgnoringCase. split.
  - intros (b & Hin & Heq).
    destruct (find (sameTitle title) (books s)) as [b'|] eqn:E; eauto.
    exfalso. pose proof (find_none _ _ E b Hin) as Hn.
    unfold sameTitle in Hn. rewrite Heq, String.eqb_refl in Hn. discriminate.
  - intros (b & Hf). apply find_some in Hf as (Hin & Hp).
    exists b. split; trivial. now apply String.eqb_eq.
Qed.

Lemma yearInRange_iff (year : JS.number) :
  year <> JS.NaN ->
  (JS.lt year (JS.ofZ 1940) || JS.gt year (JS.ofZ 2100) = false
   <-> yearInRange year).
Proof.
  intros Hy. unfold yearInRange, JS.gt. rewrite orb_false_iff.
  rewrite !lt_false_iff by (trivial || discriminate). reflexivity.
Qed.

(** ** Creation: the order of the checks *)

(** C1. [create] answers DuplicateTitle when a live record has the title up
    to case; otherwise InvalidYear when the year is outside [1940, 2100];
    otherwise InvalidPrice when the price is at most 0; otherwise it succeeds
    with the identifier it allocates, the one the appended record carries.
    The year is a number (a JSON body cannot carry NaN). *)
Theorem create_checks_in_order
    (s : state) (title author : string) (year price : JS.number)
    (genres : list string) :
  year <> JS.NaN ->
  (titleTaken s title ->
     create s title author year price genres = (s, Err DuplicateTitle)) /\
  (~ titleTaken s title -> ~ yearInRange year ->
     create s title author year price genres = (s, Err InvalidYear)) /\
  (~ titleTaken s title -> yearInRange year -> Num.Le price (JS.ofZ 0) ->
     create s title author year price genres = (s, Err InvalidPrice)) /\
  (~ titleTaken s title -> yearInRange year -> ~ Num.Le price (JS.ofZ 0) ->
     create s title author year price genres =
       (mkState
          (books s ++ [Book.mk (currentId s) title author year price genres])
          (JS.succ (currentId s)),
        Ok (currentId s))).
Proof.
  intros Hy. unfold create.
  destruct (find (sameTitle title) (books s)) as [b|] eqn:Ef.
  - assert (Ht : titleTaken s title) by (apply find_sameTitle_some; eauto).
    repeat split; intros; trivial; contradiction.
  - assert (Ht : ~ titleTaken s title).
    { intros H. apply find_sameTitle_some in H as (b & Hb). congruence. }
    split; [intros; contradiction|].
    destruct (JS.lt year (JS.ofZ 1940) || JS.gt year (JS.ofZ 2100)) eqn:Ey.
    + assert (Hr : ~ yearInRange year).
      { intros H. apply yearInRange_iff in H; congruence. }
      repeat split; intros; trivial; contradiction.
    + assert (Hr : yearInRange year) by (apply yearInRange_iff; trivial).
      split; [intros; contradiction|].
      destruct (JS.le price (JS.ofZ 0)) eqn:Ep.
      * apply le_iff in Ep. split; intros; trivial; contradiction.
      * assert (Hp : ~ Num.Le price (JS.ofZ 0)).
        { intros H. apply le_iff in H. congruence. }
        split; intros; trivial; contradiction.
Qed.

Lemma create_checks_in_order_witness :
  JS.ofZ 1939 <> JS.NaN /\
  create initial "Dune" "Frank Herbert" (JS.ofZ 1939) (JS.ofZ 0) ["SCI_FI"]
    = (initial, Err InvalidYear).
Proof.
  split; [discriminate|].
  apply (create_checks_in_order initial "Dune" "Frank Herbert"
           (JS.ofZ 1939) (JS.ofZ 0) ["SCI_FI"]); [discriminate | |].
  - intros (b & Hin & _). exact Hin.
  - intros [H _]. apply le_iff in H. discriminate.
Defined.

(** ** Failed writes *)

(** C7. A write that fails leaves the store as it was: when [create],
    [updatePrice] or [deleteBook] answers an error, the records and the next
    identifier are those of the state it was called in. *)
Theorem failed_write_changes_nothing (s : state) :
  (forall title author year price genres e,
     snd (create s title author year price genres) = Err e ->
     fst (create s title author year price genres) = s) /\
  (forall id price e,
     snd (updatePrice s id price) = Err e ->
     fst (updatePrice s id price) = s) /\
  (forall id e,
     snd (deleteBook s id) = Err e -> fst (deleteBook s id) = s).
Proof.
  repeat split.
  - intros title author year price genres e. unfold create.
    destruct (find _ _); trivial.
    destruct (_ || _); trivial.
    destruct (JS.le _ _); trivial. discriminate.
  - intros id price e. unfold updatePrice.
    destruct (find _ _); trivial.
    destruct (JS.le _ _); trivial. discriminate.
  - intros id e. unfold deleteBook.
    destruct (_ =? _); trivial. discriminate.
Qed.

Lemma failed_write_changes_nothing_witness :
  snd (deleteBook initial (Some "7")) = Err NotFound /\
  fst (deleteBook initial (Some "7")) = initial.
Proof.
  split; [reflexivity|].
  apply (proj2 (proj2 (failed_write_changes_nothing initial))
           (Some "7") NotFound).
  reflexivity.
Defined.

(** The errors a write can answer are the four of the specification. *)
Lemma write_errors (s : state) :
  (forall title author year price genres e,
     snd (create s title author year price genres) = Err e ->
     e = DuplicateTitle \/ e = InvalidYear \/ e = InvalidPrice) /\
  (forall id price e,
     snd (updatePrice s id price) = Err e ->
     e = NotFound \/ e = InvalidPrice) /\
  (forall id e, snd (deleteBook s id) = Err e -> e = NotFound).
Proof.
  repeat split.
  - intros title author year price genres e. unfold create.
    destruct (find _ _); [intros [= <-]; auto|].
    destruct (_ || _); [intros [= <-]; auto|].
    destruct (JS.le _ _); [intros [= <-]; auto|]. discriminate.
  - intros id price e. unfold updatePrice.
    destruct (find _ _); [|intros [= <-]; auto].
    destruct (JS.le _ _); [intros [= <-]; auto|]. discriminate.
  - intros id e. unfold deleteBook.
    destruct (_ =? _); [intros [= <-]; auto|]. discriminate.
Qed.

(** ** Sorting *)

Section SortFacts.

Variable localeCompare : string -> string -> Z.

Lemma insert_perm (x : Book.t) (l : list Book.t) :
  Permutation (x :: l) (insert localeCompare x l).
Proof.
  induction l as [|y r IH]; simpl; [reflexivity|].
  destruct (_ <=? 0); [reflexivity|].
  rewrite perm_swap. now constructor.
Qed.

Lemma sort_perm (l : list Book.t) : Permutation l (sort localeCompare l).
Proof.
  induction l as [|x r IH]; simpl; [constructor|].
  rewrite <- insert_perm. now constructor.
Qed.

Lemma sort_length (l : list Book.t) :
  List.length (sort localeCompare l) = List.length l.
Proof. symmetry. apply Permutation_length, sort_perm. Qed.

(** Of two strings, one does not come after the other. *)
Hypothesis localeCompare_total :
  forall a b, localeCompare a b <= 0 \/ localeCompare b a <= 0.

Lemma insert_sorted (x : Book.t) (l : list Book.t) :
  Sorted (titleOrder localeCompare) l -> Sorted (titleOrder localeCompare) (insert localeCompare x l).
Proof.
  induction 1 as [|y r Hr IH Hy]; simpl.
  - repeat constructor.
  - destruct (compareTitles localeCompare x y <=? 0) eqn:E.
    + apply Z.leb_le in E. repeat constructor; trivial.
    + apply Z.leb_gt in E.
      assert (Hyx : titleOrder localeCompare y x).
      { unfold titleOrder, compareTitles in *.
        destruct (localeCompare_total
                    (JS.toLowerCase (Book.title x))
                    (JS.toLowerCase (Book.title y))); [lia | trivial]. }
      constructor; trivial.
      destruct r as [|z r']; simpl in *.
      * now constructor.
      * destruct (_ <=? 0); constructor; trivial. now inversion Hy.
Qed.

Lemma sort_sorted (l : list Book.t) : Sorted (titleOrder localeCompare) (sort localeCompare l).
Proof.
  induction l as [|x r IH]; simpl; [constructor | now apply insert_sorted].
Qed.

End SortFacts.

(** ** The query engine and the store *)

Lemma filterIf_elements (s : state) (v : option string)
    (p : string -> Book.t -> bool) (a : bookArray) :
  elements s (filterIf s v p a) =
    match v with
    | Some x => if JS.truthy v then filter (p x) (elements s a)
                else elements s a
    | None => elements s a
    end.
Proof.
  unfold filterIf. destruct v as [x|]; trivial. now destruct (JS.truthy _).
Qed.

Lemma filterIf_new (s : state) (v : option string)
    (p : string -> Book.t -> bool) (a : bookArray) :
  a <> StoreArray -> filterIf s v p a <> StoreArray.
Proof.
  unfold filterIf, arrayFilter. intros Ha.
  destruct v; trivial. now destruct (JS.truthy _).
Qed.

Lemma filterIf_truthy_new (s : state) (v : option string)
    (p : string -> Book.t -> bool) (a : bookArray) :
  JS.truthy v = true -> filterIf s v p a <> StoreArray.
Proof.
  unfold filterIf, arrayFilter. intros Hv.
  destruct v; [|discriminate]. now rewrite Hv.
Qed.

(** The count entry point never touches the store. *)
Lemma filteredCount_keeps_store (s : state) (query : Query.t) :
  fst (filteredCount s query) = s.
Proof. unfold filteredCount. now destruct (filterBooks s query). Qed.

(** The listing leaves the store alone as soon as one criterion applies:
    the array it sorts is then a new one. *)
Lemma filteredList_keeps_store_when_filtering
    (localeCompare : string -> string -> Z) (s : state) (query : Query.t) :
  JS.truthy (Query.genres query) || JS.truthy (Query.author query)
  || JS.truthy (Query.priceBiggerThan query)
  || JS.truthy (Query.priceLessThan query)
  || JS.truthy (Query.yearBiggerThan query)
  || JS.truthy (Query.yearLessThan query) = true ->
  fst (filteredList localeCompare s query) = s.
Proof.
  intros H. unfold filteredList.
  destruct (filterBooks s query) as [a|e] eqn:E; trivial.
  simpl. enough (Ha : a <> StoreArray) by (destruct a; [congruence | reflexivity]).
  unfold filterBooks in E.
  destruct (filterGenres s (Query.genres query) StoreArray) as [a0|] eqn:Eg;
    [|discriminate].
  injection E as <-. unfold filterRest.
  destruct (JS.truthy (Query.genres query)) eqn:Tg.
  - assert (H0 : a0 <> StoreArray).
    { unfold filterGenres in Eg. destruct (Query.genres query); [|discriminate].
      rewrite Tg in Eg. destruct (negb _); [discriminate|].
      injection Eg as <-. discriminate. }
    now repeat apply filterIf_new.
  - simpl in H.
    destruct (JS.truthy (Query.yearLessThan query)) eqn:T5;
      [now apply filterIf_truthy_new|]. apply filterIf_new.
    destruct (JS.truthy (Query.yearBiggerThan query)) eqn:T4;
      [now apply filterIf_truthy_new|]. apply filterIf_new.
    destruct (JS.truthy (Query.priceLessThan query)) eqn:T3;
      [now apply filterIf_truthy_new|]. apply filterIf_new.
    destruct (JS.truthy (Query.priceBiggerThan query)) eqn:T2;
      [now apply filterIf_truthy_new|]. apply filterIf_new.
    destruct (JS.truthy (Query.author query)) eqn:T1;
      [now apply filterIf_truthy_new|]. discriminate.
Qed.

(** In every case the listing keeps the records and the counter: at most
    the order of the records changes. *)
Lemma filteredList_permutes_store
    (localeCompare : string -> string -> Z) (s : state) (query : Query.t) :
  Permutation (books s) (books (fst (filteredList localeCompare s query)))
  /\ currentId (fst (filteredList localeCompare s query)) = currentId s.
Proof.
  unfold filteredList. destruct (filterBooks s query) as [[|l]|e]; simpl;
    auto using sort_perm.
Qed.

(** C4. The listing with no criterion sorts the array of the store itself:
    after two creations in the order "Beta", "alpha" the store holds
    "alpha" first. The count, and the listing under a criterion, leave the
    store alone ([filteredCount_keeps_store],
    [filteredList_keeps_store_when_filtering]). *)
Theorem filteredList_reorders_store :
  let beta := Book.mk 1 "Beta" "B. Author" (JS.ofZ 2001) (JS.ofZ 30)
                      ["NOVEL"] in
  let alpha := Book.mk 2 "alpha" "A. Author" (JS.ofZ 2002) (JS.ofZ 20)
                       ["MANGA"] in
  let created :=
    fst (run codeUnitCompare initial
           [Create "Beta" "B. Author" (JS.ofZ 2001) (JS.ofZ 30) ["NOVEL"];
            Create "alpha" "A. Author" (JS.ofZ 2002) (JS.ofZ 20) ["MANGA"]])
  in
  books created = [beta; alpha] /\
  books (fst (filteredList codeUnitCompare created Query.empty))
    = [alpha; beta] /\
  fst (filteredList codeUnitCompare created Query.empty) <> created.
Proof.
  vm_compute. repeat split. discriminate.
Qed.

(** ** Count and list *)

(** C10. On the same state and criteria the count entry point answers the
    length of the list the list entry point answers, and they fail
    together. *)
Theorem count_is_length_of_list
    (localeCompare : string -> string -> Z) (s : state) (query : Query.t) :
  snd (filteredCount s query) =
    mapResult (fun l => Z.of_nat (List.length l))
              (snd (filteredList localeCompare s query)).
Proof.
  unfold filteredCount, filteredList.
  destruct (filterBooks s query) as [a|e]; simpl; trivial.
  now rewrite length_map, sort_length.
Qed.

(** ** The criteria as one filter *)

Lemma filter_filter {A : Type} (p q : A -> bool) (l : list A) :
  filter q (filter p l) = filter (fun x => p x && q x) l.
Proof.
  induction l as [|x r IH]; simpl; trivial.
  destruct (p x); simpl; [destruct (q x)|]; now rewrite IH.
Qed.

Lemma filter_all {A : Type} (p : A -> bool) (l : list A) :
  (forall x, In x l -> p x = true) -> filter p l = l.
Proof.
  intros H. apply forallb_filter_id, forallb_forall. exact H.
Qed.

Lemma filter_none {A : Type} (p : A -> bool) (l : list A) :
  (forall x, In x l -> p x = false) -> filter p l = [].
Proof.
  induction l as [|x r IH]; simpl; trivial. intros H.
  rewrite (H x) by auto. apply IH. auto.
Qed.

Lemma filterIf_passes (s : state) (v : option string)
    (p : string -> Book.t -> bool) (a : bookArray) :
  elements s (filterIf s v p a) = filter (passes v p) (elements s a).
Proof.
  rewrite filterIf_elements. unfold passes. destruct v as [x|].
  - destruct (JS.truthy (Some x)); trivial.
    symmetry. now apply filter_all.
  - symmetry. now apply filter_all.
Qed.

Lemma filterRest_elements (s : state) (q : Query.t) (a : bookArray) :
  elements s (filterRest s q a) = filter (passesRest q) (elements s a).
Proof.
  unfold filterRest, passesRest.
  rewrite !filterIf_passes, !filter_filter.
  apply filter_ext. intros b. now rewrite !andb_assoc.
Qed.

Lemma truthy_some (x : string) : JS.truthy (Some x) = true <-> x <> "".
Proof.
  simpl. rewrite negb_true_iff. split.
  - intros H ->. discriminate.
  - intros H. destruct (String.eqb_spec x ""); congruence.
Qed.

Lemma passes_iff (v : option string) (p : string -> Book.t -> bool)
    (b : Book.t) :
  passes v p b = true <-> (forall x, v = Some x -> x <> "" -> p x b = true).
Proof.
  unfold passes. destruct v as [x|]; [|split; [discriminate | trivial]].
  destruct (JS.truthy (Some x)) eqn:T.
  - apply truthy_some in T. split.
    + now intros H y [= <-] _.
    + intros H. now apply H.
  - split; trivial. intros _ y [= <-] Hy.
    apply truthy_some in Hy. congruence.
Qed.

Lemma passesRest_iff (q : Query.t) (b : Book.t) :
  passesRest q b = true <-> meetsRest q b.
Proof.
  unfold passesRest, meetsRest. rewrite !andb_true_iff, !passes_iff.
  unfold authorIs, priceAtLeast, priceAtMost, yearAtLeast, yearAtMost,
    sameIgnoringCase, JS.ge.
  setoid_rewrite String.eqb_eq. setoid_rewrite le_iff. tauto.
Qed.

Lemma le_nan_r (a : JS.number) : JS.le a JS.NaN = false.
Proof. now destruct a. Qed.

Lemma le_nan_l (a : JS.number) : JS.le JS.NaN a = false.
Proof. reflexivity. Qed.

Lemma setBound_genres (k : bound) (v : option string) (q : Query.t) :
  Query.genres (setBound k v q) = Query.genres q.
Proof. now destruct k. Qed.

(** A bound that [parseInt] reads as [NaN] fails every record. *)
Lemma passesRest_nan_bound (k : bound) (q : Query.t) (x : string)
    (b : Book.t) :
  getBound k q = Some x -> x <> "" -> JS.parseInt (Some x) = JS.NaN ->
  passesRest q b = false.
Proof.
  intros Hk Hx Hn. apply truthy_some in Hx.
  unfold passesRest.
  destruct k; simpl in Hk; rewrite Hk; unfold passes; rewrite Hx;
    unfold priceAtLeast, priceAtMost, yearAtLeast, yearAtMost, JS.ge;
    rewrite Hn, ?le_nan_r, ?le_nan_l;
    rewrite ?andb_false_r; reflexivity.
Qed.

(** Dropping a bound that is the empty string changes no step. *)
Lemma filterBooks_empty_bound (s : state) (k : bound) (q : Query.t) :
  getBound k q = Some "" -> filterBooks s (setBound k None q) = filterBooks s q.
Proof.
  intros Hk. unfold filterBooks. rewrite setBound_genres.
  destruct (filterGenres s (Query.genres q) StoreArray) as [a|e]; trivial.
  f_equal. unfold filterRest.
  destruct k; simpl in *; rewrite Hk; reflexivity.
Qed.

(** ** Malformed bounds *)

(** C3, as stated, fails: with one record in the store, the count under the
    bound [price-bigger-than=abc] is 0, and 1 with the bound left out; the
    list is empty under the bound and has the record without it. *)
Lemma malformed_bound_is_not_ignored :
  let s := fst (create initial "Dune" "Frank Herbert" (JS.ofZ 1965)
                       (JS.ofZ 30) ["SCI_FI"]) in
  let q := setBound PriceBiggerThan (Some "abc") Query.empty in
  setBound PriceBiggerThan None q = Query.empty /\
  snd (filteredCount s q) = Ok 0 /\
  snd (filteredCount s Query.empty) = Ok 1 /\
  snd (filteredList codeUnitCompare s q) = Ok [] /\
  snd (filteredList codeUnitCompare s Query.empty) =
    Ok [View.mk 1 "Dune" "Frank Herbert" (JS.ofZ 30) (JS.ofZ 1965)
                ["SCI_FI"]] /\
  filteredCount s q <> filteredCount s Query.empty.
Proof.
  vm_compute. repeat split. discriminate.
Qed.

(** C3, amended. A bound given as the empty string is the bound left out.
    A bound given as a non-empty string that [parseInt] reads no integer
    from fails every record: the query raises no error of its own (it fails
    exactly when it fails without the bound, on the genres), the count is 0,
    the list is empty, and the store is untouched. *)
Theorem unreadable_bound_matches_nothing
    (localeCompare : string -> string -> Z)
    (s : state) (q : Query.t) (k : bound) (x : string) :
  getBound k q = Some x ->
  (x = "" ->
     filteredCount s q = filteredCount s (setBound k None q) /\
     filteredList localeCompare s q =
       filteredList localeCompare s (setBound k None q)) /\
  (x <> "" -> JS.parseInt (Some x) = JS.NaN ->
     filteredCount s q =
       (s, mapResult (fun _ => 0)
                     (snd (filteredCount s (setBound k None q)))) /\
     filteredList localeCompare s q =
       (s, mapResult (fun _ => [])
                     (snd (filteredList localeCompare s (setBound k None q))))).
Proof.
  intros Hk. split.
  - intros ->. unfold filteredCount, filteredList.
    now rewrite (filterBooks_empty_bound s k q Hk).
  - intros Hx Hn.
    assert (Hs : fst (filteredList localeCompare s q) = s).
    { apply filteredList_keeps_store_when_filtering.
      apply truthy_some in Hx.
      destruct k; simpl in Hk; rewrite Hk, Hx;
        rewrite ?orb_true_r; reflexivity. }
    revert Hs. unfold filteredCount, filteredList, filterBooks.
    rewrite setBound_genres.
    destruct (filterGenres s (Query.genres q) StoreArray) as [a|e]; simpl;
      [|split; reflexivity].
    intros Hs. rewrite Hs.
    assert (He : elements s (filterRest s q a) = []).
    { rewrite filterRest_elements. apply filter_none. intros b _.
      now apply (passesRest_nan_bound k q x). }
    rewrite He. split; reflexivity.
Qed.

Lemma unreadable_bound_matches_nothing_witness :
  let s := fst (create initial "Dune" "Frank Herbert" (JS.ofZ 1965)
                       (JS.ofZ 30) ["SCI_FI"]) in
  let q := setBound YearLessThan (Some "n/a") Query.empty in
  filteredCount s q = (s, Ok 0) /\
  filteredList codeUnitCompare s q = (s, Ok []).
Proof.
  intros s q.
  apply (unreadable_bound_matches_nothing codeUnitCompare s q
           YearLessThan "n/a"); [reflexivity | discriminate | reflexivity].
Defined.

(** ** Filtering by genres *)

Lemma includes_iff (arr : list string) (x : string) :
  JS.includes arr x = true <-> In x arr.
Proof.
  unfold JS.includes. rewrite existsb_exists. split.
  - intros (y & Hin & He). apply String.eqb_eq in He. now subst.
  - intros H. exists x. split; trivial. apply String.eqb_refl.
Qed.

Lemma someGenreIn_iff (tags : list string) (b : Book.t) :
  someGenreIn tags b = true <-> sharesGenre tags b.
Proof.
  unfold someGenreIn, sharesGenre. rewrite existsb_exists.
  now setoid_rewrite includes_iff.
Qed.

Lemma allValid_iff (tags : list string) :
  forallb (fun genre => JS.includes validGenres genre) tags = true
  <-> (forall t, In t tags -> In t validGenres).
Proof.
  rewrite forallb_forall. now setoid_rewrite includes_iff.
Qed.

Lemma filterRest_new (s : state) (q : Query.t) (a : bookArray) :
  a <> StoreArray -> filterRest s q a <> StoreArray.
Proof. intros H. unfold filterRest. now repeat apply filterIf_new. Qed.

Lemma codeUnitCompare_total (a b : string) :
  codeUnitCompare a b <= 0 \/ codeUnitCompare b a <= 0.
Proof.
  unfold codeUnitCompare. rewrite (String.compare_antisym a b).
  destruct (String.compare b a); simpl; lia.
Qed.

(** ** Identifiers *)

Lemma create_ok (s s1 : state) (title author : string)
    (year price : JS.number) (genres : list string) (n : Z) :
  create s title author year price genres = (s1, Ok n) ->
  n = currentId s /\ currentId s1 = JS.succ (currentId s).
Proof.
  unfold create. destruct (find _ _); [discriminate|].
  destruct (_ || _); [discriminate|].
  destruct (JS.le _ _); [discriminate|].
  intros [= <- <-]. auto.
Qed.

Lemma create_counter (s : state) (title author : string)
    (year price : JS.number) (genres : list string) :
  currentId (fst (create s title author year price genres)) = currentId s
  \/ exists n, snd (create s title author year price genres) = Ok n.
Proof.
  unfold create. destruct (find _ _); auto.
  destruct (_ || _); auto. destruct (JS.le _ _); auto.
  right. eexists. reflexivity.
Qed.

Lemma updatePrice_counter (s : state) (id price : option string) :
  currentId (fst (updatePrice s id price)) = currentId s.
Proof.
  unfold updatePrice. destruct (find _ _); trivial.
  now destruct (JS.le _ _).
Qed.

(** Deleting leaves the counter where it is. *)
Lemma deleteBook_counter (s : state) (id : option string) :
  currentId (fst (deleteBook s id)) = currentId s.
Proof. unfold deleteBook. now destruct (_ =? _). Qed.

Lemma step_counter (localeCompare : string -> string -> Z)
    (s : state) (o : op) :
  isCreated (snd (step localeCompare s o)) = false ->
  currentId (fst (step localeCompare s o)) = currentId s.
Proof.
  destruct o as [t a y p g|i|i p|i|q|q]; simpl.
  - destruct (create_counter s t a y p g) as [H|(n & H)];
      destruct (create s t a y p g) as [s' r]; simpl in *; trivial.
    subst r. discriminate.
  - trivial.
  - intros _. pose proof (updatePrice_counter s i p) as H.
    now destruct (updatePrice s i p).
  - intros _. pose proof (deleteBook_counter s i) as H.
    now destruct (deleteBook s i).
  - intros _. pose proof (filteredCount_keeps_store s q) as H.
    destruct (filteredCount s q). simpl in *. now subst.
  - intros _.
    pose proof (proj2 (filteredList_permutes_store localeCompare s q)) as H.
    now destruct (filteredList localeCompare s q).
Qed.

Lemma run_counter (localeCompare : string -> string -> Z)
    (ops : list op) (s : state) :
  Forall (fun r => isCreated r = false) (snd (run localeCompare s ops)) ->
  currentId (fst (run localeCompare s ops)) = currentId s.
Proof.
  revert s. induction ops as [|o rest IH]; intros s; simpl; trivial.
  pose proof (step_counter localeCompare s o) as Hs.
  destruct (step localeCompare s o) as [s1 r]. specialize (IH s1).
  destruct (run localeCompare s1 rest) as [s2 rs]. simpl in *.
  intros H. inversion H; subst. rewrite IH, Hs; trivial.
Qed.

(** C5. When a creation returns the identifier [N], the next successful
    creation returns [N + 1], whatever requests are served in between:
    deletions, updates, queries, creations that fail. Identifiers are
    doubles, exact below [2^53]. *)
Theorem next_id_is_successor
    (localeCompare : string -> string -> Z)
    (s s1 s2 s3 : state) (ops : list op) (N M : Z)
    (title author title' author' : string)
    (year price year' price' : JS.number) (genres genres' : list string) :
  create s title author year price genres = (s1, Ok N) ->
  N < 2 ^ 53 ->
  fst (run localeCompare s1 ops) = s2 ->
  Forall (fun r => isCreated r = false) (snd (run localeCompare s1 ops)) ->
  create s2 title' author' year' price' genres' = (s3, Ok M) ->
  M = N + 1.
Proof.
  intros Hc HN Hrun Hnone Hc'.
  apply create_ok in Hc as (-> & H1). apply create_ok in Hc' as (-> & _).
  subst s2. rewrite (run_counter _ _ _ Hnone), H1.
  unfold JS.succ. apply Z.ltb_lt in HN. now rewrite HN.
Qed.

Lemma next_id_is_successor_witness :
  let s1 := fst (create initial "Dune" "Frank Herbert" (JS.ofZ 1965)
                        (JS.ofZ 30) ["SCI_FI"]) in
  let s2 := fst (run codeUnitCompare s1 [Delete (Some "1")]) in
  snd (create initial "Dune" "Frank Herbert" (JS.ofZ 1965) (JS.ofZ 30)
              ["SCI_FI"]) = Ok 1 /\
  books s2 = [] /\
  snd (create s2 "Emma" "Jane Austen" (JS.ofZ 1950) (JS.ofZ 12) ["NOVEL"])
    = Ok 2 /\
  2 = 1 + 1.
Proof.
  intros s1 s2. split; [reflexivity|]. split; [reflexivity|].
  split; [reflexivity|].
  apply (next_id_is_successor codeUnitCompare initial s1 s2
           (fst (create s2 "Emma" "Jane Austen" (JS.ofZ 1950) (JS.ofZ 12)
                        ["NOVEL"]))
           [Delete (Some "1")] 1 2 "Dune" "Frank Herbert" "Emma"
           "Jane Austen" (JS.ofZ 1965) (JS.ofZ 30) (JS.ofZ 1950) (JS.ofZ 12)
           ["SCI_FI"] ["NOVEL"]).
  - reflexivity.
  - reflexivity.
  - reflexivity.
  - repeat constructor.
  - reflexivity.
Defined.

(** ** The log-level registry *)

Lemma selectLogger_channel (name : option string) :
  isChannel name <-> exists l, selectLogger name = Some l.
Proof.
  unfold isChannel, selectLogger. destruct name as [n|].
  - destruct (String.eqb_spec n "request-logger") as [->|H1].
    + split; eauto.
    + destruct (String.eqb_spec n "books-logger") as [->|H2].
      * split; eauto.
      * split; [intros [[= ->]|[= ->]]; congruence | intros (l & [=])].
  - split; [intros [[=]|[=]] | intros (l & [=])].
Qed.

Lemma validLevels_lower (v : string) :
  In v validLevels -> JS.toLowerCase v = v.
Proof.
  simpl. intros H.
  repeat (destruct H as [<-|H]; [reflexivity|]). contradiction.
Qed.

Lemma isSeverity_iff (lvl : string) :
  JS.includes validLevels (JS.toLowerCase lvl) = true <-> isSeverity lvl.
Proof.
  rewrite includes_iff. unfold isSeverity, sameIgnoringCase. split.
  - intros H. exists (JS.toLowerCase lvl). split; trivial.
    symmetry. now apply validLevels_lower.
  - intros (v & Hv & He). rewrite He, validLevels_lower; trivial.
Qed.




(** ** The genres of the live records *)

Lemma In_firstn {A : Type} (n : nat) (l : list A) (x : A) :
  In x (firstn n l) -> In x l.
Proof.
  revert l. induction n as [|n IH]; intros [|y r]; simpl; auto.
  - contradiction.
  - intros [H|H]; auto.
Qed.

Lemma In_skipn {A : Type} (n : nat) (l : list A) (x : A) :
  In x (skipn n l) -> In x l.
Proof.
  revert l. induction n as [|n IH]; intros [|y r]; simpl; auto.
Qed.

(** What [splice] leaves was there before. *)
Lemma In_splice1 {A : Type} (i : Z) (l : list A) (x : A) :
  In x (splice1 i l) -> In x l.
Proof.
  unfold splice1. intros H. apply in_app_or in H as [H|H];
    [now apply In_firstn in H | now apply In_skipn in H].
Qed.

(** The assignment to [price] touches no other field. *)
Lemma assignPrice_keeps (P : Book.t -> Prop) (p : Book.t -> bool)
    (v : JS.number) (l : list Book.t) :
  (forall b, P b -> P (Book.withPrice v b)) ->
  Forall P l -> Forall P (assignPrice p v l).
Proof.
  intros HP. induction 1 as [|b r Hb Hr IH]; simpl; [constructor|].
  destruct (p b); constructor; auto.
Qed.

Section Invariants.

Variable localeCompare : string -> string -> Z.

(** A property of records that the assignment to [price] keeps, and that
    every created record has, holds of every live record. *)
Lemma step_keeps (P : Book.t -> Prop) (s : state) (o : op) :
  (forall v b, P b -> P (Book.withPrice v b)) ->
  match o with
  | Create t a y p g => P (Book.mk (currentId s) t a y p g)
  | _ => True
  end ->
  Forall P (books s) -> Forall P (books (fst (step localeCompare s o))).
Proof.
  intros HP Ho Hs. destruct o as [t a y p g|i|i p|i|q|q]; simpl; trivial.
  - unfold create. destruct (find _ _); trivial.
    destruct (_ || _); trivial. destruct (JS.le _ _); trivial.
    simpl. apply Forall_app. auto.
  - unfold updatePrice. destruct (find _ _); trivial.
    destruct (JS.le _ _); trivial. simpl. apply assignPrice_keeps; auto.
  - unfold deleteBook. destruct (_ =? _); trivial. simpl.
    rewrite Forall_forall in *. intros b Hb.
    apply Hs. now apply In_splice1 in Hb.
  - pose proof (filteredCount_keeps_store s q) as H.
    destruct (filteredCount s q). simpl in *. now subst.
  - pose proof (proj1 (filteredList_permutes_store localeCompare s q)) as H.
    destruct (filteredList localeCompare s q). simpl in *.
    now apply (Permutation_Forall H).
Qed.

(** C9, amended. [create] does not validate the genres: its answer is the
    same whatever genres it is given, and on success the record it appends
    carries them as given. No request changes the genres of a record: a
    record of the store after a request is the record just created, or is
    a record of the store before, but perhaps for its price. So when every
    creation of a sequence of requests from the empty store supplies a
    non-empty list of catalog tags, every live record has such a list. *)
Theorem genres_are_those_supplied :
  (forall s title author year price genres genres',
     snd (create s title author year price genres) =
     snd (create s title author year price genres')) /\
  (forall s s' title author year price genres n,
     create s title author year price genres = (s', Ok n) ->
     books s' =
       (books s ++ [Book.mk n title author year price genres])%list) /\
  (forall s o b',
     In b' (books (fst (step localeCompare s o))) ->
     (exists b, In b (books s) /\ sameButPrice b' b) \/
     (exists title author year price genres,
        o = Create title author year price genres /\
        b' = Book.mk (currentId s) title author year price genres)) /\
  (forall ops,
     Forall suppliesGoodGenres ops ->
     Forall (fun b => goodGenres (Book.genres b))
            (books (fst (run localeCompare initial ops)))).
Proof.
  assert (Hsame : forall b, sameButPrice b b) by (repeat split).
  split; [|split; [|split]].
  - intros s t a y p g g'. unfold create. destruct (find _ _); trivial.
    destruct (_ || _); trivial. now destruct (JS.le _ _).
  - intros s s' t a y p g n. unfold create. destruct (find _ _);
      [discriminate|].
    destruct (_ || _); [discriminate|].
    destruct (JS.le _ _); [discriminate|]. now intros [= <- <-].
  - intros s o b'. destruct o as [t a y p g|i|i p|i|q|q]; simpl.
    + unfold create. destruct (find _ _); simpl; eauto.
      destruct (_ || _); simpl; eauto. destruct (JS.le _ _); simpl; eauto.
      intros H. apply in_app_or in H as [H|[<-|[]]]; eauto 10.
    + eauto.
    + unfold updatePrice. destruct (find _ _); simpl; eauto.
      destruct (JS.le _ _); simpl; eauto. intros H. left.
      induction (books s) as [|b r IH]; [contradiction|]. simpl in H.
      destruct (hasId i b).
      * destruct H as [<-|H]; [|exists b'; simpl; auto].
        exists b. split; [now left | repeat split].
      * destruct H as [<-|H]; [exists b; simpl; auto|].
        destruct (IH H) as (b0 & Hb0 & Hs0). exists b0. simpl. auto.
    + unfold deleteBook. destruct (_ =? _); simpl; eauto.
      intros H. apply In_splice1 in H. eauto.
    + unfold filteredCount. destruct (filterBooks s q); simpl; eauto.
    + intros H. left. exists b'. split; trivial.
      apply (Permutation_in _
               (Permutation_sym
                  (proj1 (filteredList_permutes_store localeCompare s q)))).
      now destruct (filteredList localeCompare s q).
  - intros ops.
    assert (H : forall s,
               Forall suppliesGoodGenres ops ->
               Forall (fun b => goodGenres (Book.genres b)) (books s) ->
               Forall (fun b => goodGenres (Book.genres b))
                      (books (fst (run localeCompare s ops)))).
    { induction ops as [|o rest IH]; intros s Hops Hs; simpl; trivial.
      inversion Hops as [|? ? Ho Hrest]; subst.
      pose proof (step_keeps (fun b => goodGenres (Book.genres b)) s o)
        as Hk.
      destruct (step localeCompare s o) as [s1 r]. specialize (IH s1).
      destruct (run localeCompare s1 rest) as [s2 rs]. simpl in *.
      apply IH; [exact Hrest | apply Hk; trivial]. }
    intros Hops. apply H; [exact Hops | constructor].
Qed.

End Invariants.

(** C9, as stated, fails: a creation with no genre, or with a tag outside
    the catalog, succeeds, and the record is stored as given. *)
Lemma create_admits_any_genres :
  let ops :=
    [Create "Dune" "Frank Herbert" (JS.ofZ 1965) (JS.ofZ 30) [];
     Create "Emma" "Jane Austen" (JS.ofZ 1950) (JS.ofZ 12) ["COOKING"]] in
  snd (run codeUnitCompare initial ops) = [Created (Ok 1); Created (Ok 2)] /\
  ~ Forall (fun b => goodGenres (Book.genres b))
           (books (fst (run codeUnitCompare initial ops))).
Proof.
  split; [reflexivity|].
  intros H. inversion H as [|b r Hb Hr]; subst.
  destruct Hb as [Hne _]. now apply Hne.
Qed.

Lemma genres_are_those_supplied_witness :
  Forall (fun b => goodGenres (Book.genres b))
         (books (fst (run codeUnitCompare initial
            [Create "Dune" "Frank Herbert" (JS.ofZ 1965) (JS.ofZ 30)
                    ["SCI_FI"; "NOVEL"];
             UpdatePrice (Some "1") (Some "45")]))).
Proof.
  apply (proj2 (proj2 (proj2 (genres_are_those_supplied codeUnitCompare)))).
  repeat constructor; simpl; auto; discriminate.
Defined.

(** ** The prices of the live records *)

(** A creation keeps every price positive: it refuses a price that is not. *)
Lemma create_keeps_prices_positive (s : state) (title author : string)
    (year price : JS.number) (genres : list string) :
  price <> JS.NaN ->
  Forall (fun b => Num.Positive (Book.price b)) (books s) ->
  Forall (fun b => Num.Positive (Book.price b))
         (books (fst (create s title author year price genres))).
Proof.
  intros Hp Hs. unfold create. destruct (find _ _); trivial.
  destruct (_ || _); trivial.
  destruct (JS.le price (JS.ofZ 0)) eqn:E; trivial.
  simpl. apply Forall_app. split; trivial. repeat constructor. simpl.
  apply lt_iff. unfold JS.le in E.
  destruct price; simpl in *; try congruence; trivial.
  now apply negb_false_iff in E.
Qed.

(** An update keeps every price positive when what [parseInt] reads from
    the parameter is positive. *)
Lemma updatePrice_keeps_prices_positive (s : state)
    (id price : option string) :
  Num.Positive (JS.parseInt price) ->
  Forall (fun b => Num.Positive (Book.price b)) (books s) ->
  Forall (fun b => Num.Positive (Book.price b))
         (books (fst (updatePrice s id price))).
Proof.
  intros Hp Hs. unfold updatePrice. destruct (find _ _); trivial.
  destruct (JS.le _ _); trivial. simpl.
  apply assignPrice_keeps; trivial.
Qed.

(** C2. [updatePrice] tests the parameter as given and stores what
    [parseInt] reads from it. For the price [0.5] the test [0.5 <= 0] fails,
    so the update is accepted, and the price stored is 0; for a price that
    is no number at all the test fails too, and the price stored is [NaN]. *)
Theorem updatePrice_stores_non_positive_price :
  let dune p := Book.mk 1 "Dune" "Frank Herbert" (JS.ofZ 1965) p ["SCI_FI"] in
  let created :=
    fst (run codeUnitCompare initial
           [Create "Dune" "Frank Herbert" (JS.ofZ 1965) (JS.ofZ 30)
                   ["SCI_FI"]]) in
  books created = [dune (JS.ofZ 30)] /\
  updatePrice created (Some "1") (Some "0.5")
    = (mkState [dune (JS.ofZ 0)] 2, Ok (JS.ofZ 30)) /\
  ~ Num.Positive (JS.ofZ 0) /\
  updatePrice created (Some "1") (Some "free")
    = (mkState [dune JS.NaN] 2, Ok (JS.ofZ 30)) /\
  ~ Num.Positive JS.NaN.
Proof.
  repeat split; try reflexivity.
  - intros H. apply lt_iff in H. discriminate.
  - intros H. exact H.
Qed.

(** ** Finding a record by identifier *)

Lemma find_split {A : Type} (p : A -> bool) (l : list A) (b : A) :
  find p l = Some b ->
  exists l1 l2, l = (l1 ++ b :: l2)%list /\ p b = true /\
                (forall x, In x l1 -> p x = false).
Proof.
  induction l as [|x r IH]; simpl; [discriminate|].
  destruct (p x) eqn:E.
  - intros [= <-]. exists [], r. repeat split; trivial. contradiction.
  - intros H. destruct (IH H) as (l1 & l2 & -> & Hb & Hl).
    exists (x :: l1), l2. repeat split; trivial.
    intros y [<-|Hy]; auto.
Qed.

Lemma find_first {A : Type} (p : A -> bool) (l1 l2 : list A) (b : A) :
  (forall x, In x l1 -> p x = false) -> p b = true ->
  find p (l1 ++ b :: l2) = Some b.
Proof.
  intros Hl Hb. induction l1 as [|x r IH]; simpl.
  - now rewrite Hb.
  - rewrite (Hl x) by (now left). apply IH. intros y Hy. apply Hl. now right.
Qed.

Lemma find_none_iff {A : Type} (p : A -> bool) (l : list A) :
  find p l = None <-> (forall x, In x l -> p x = false).
Proof.
  split; [apply find_none|].
  induction l as [|x r IH]; simpl; trivial. intros H.
  rewrite (H x) by (now left). apply IH. auto.
Qed.

Lemma findIndex_none {A : Type} (p : A -> bool) (l : list A) :
  findIndex p l = -1 <-> find p l = None.
Proof.
  induction l as [|x r IH]; simpl; [tauto|].
  destruct (p x); [split; discriminate|].
  destruct (findIndex p r =? -1) eqn:E.
  - apply Z.eqb_eq in E. tauto.
  - apply Z.eqb_neq in E. split; [|tauto].
    assert (Hge : forall l0 : list A, -1 <= findIndex p l0).
    { induction l0 as [|y t IHt]; simpl; [lia|].
      destruct (p y); [lia|]. destruct (_ =? -1); lia. }
    specialize (Hge r). lia.
Qed.

Lemma findIndex_first {A : Type} (p : A -> bool) (l1 l2 : list A) (b : A) :
  (forall x, In x l1 -> p x = false) -> p b = true ->
  findIndex p (l1 ++ b :: l2) = Z.of_nat (List.length l1).
Proof.
  intros Hl Hb. induction l1 as [|x r IH]; simpl.
  - now rewrite Hb.
  - rewrite (Hl x) by (now left).
    rewrite IH by (intros y Hy; apply Hl; now right).
    destruct (Z.of_nat (List.length r) =? -1) eqn:E; [|lia].
    apply Z.eqb_eq in E. lia.
Qed.

Lemma splice1_middle {A : Type} (l1 l2 : list A) (b : A) :
  splice1 (Z.of_nat (List.length l1)) (l1 ++ b :: l2) = (l1 ++ l2)%list.
Proof.
  unfold splice1.
  replace (Z.to_nat (Z.of_nat (List.length l1) + 1))
    with (List.length l1 + 1)%nat by lia.
  rewrite Nat2Z.id.
  rewrite firstn_app, firstn_all, Nat.sub_diag, firstn_0, app_nil_r.
  rewrite skipn_app, skipn_all2 by lia.
  replace (List.length l1 + 1 - List.length l1)%nat with 1%nat by lia.
  reflexivity.
Qed.

Lemma assignPrice_first (p : Book.t -> bool) (v : JS.number)
    (l1 l2 : list Book.t) (b : Book.t) :
  (forall x, In x l1 -> p x = false) -> p b = true ->
  assignPrice p v (l1 ++ b :: l2) = (l1 ++ Book.withPrice v b :: l2)%list.
Proof.
  intros Hl Hb. induction l1 as [|x r IH]; simpl.
  - now rewrite Hb.
  - rewrite (Hl x) by (now left). f_equal. apply IH.
    intros y Hy. apply Hl. now right.
Qed.

(** ** What update and delete do to the store *)

Lemma updatePrice_ok_split (s s' : state) (id price : option string)
    (old : JS.number) :
  updatePrice s id price = (s', Ok old) ->
  exists l1 b l2,
    books s = (l1 ++ b :: l2)%list /\
    hasId id b = true /\
    (forall x, In x l1 -> hasId id x = false) /\
    old = Book.price b /\
    books s' = (l1 ++ Book.withPrice (JS.parseInt price) b :: l2)%list /\
    currentId s' = currentId s.
Proof.
  unfold updatePrice.
  destruct (find (hasId id) (books s)) as [b|] eqn:Ef; [|discriminate].
  destruct (JS.le _ _); [discriminate|]. intros [= <- <-].
  destruct (find_split _ _ _ Ef) as (l1 & l2 & Hs & Hb & Hl).
  exists l1, b, l2. simpl. rewrite Hs at 2.
  rewrite assignPrice_first; auto 6.
Qed.

(** X1. A successful update answers the price of the first record with the
    identifier and replaces it by what [parseInt] reads from the parameter;
    every other record, every other field, the order of the records and
    the counter stay as they were. *)
Theorem updatePrice_effect (s s' : state) (id price : option string)
    (old : JS.number) :
  updatePrice s id price = (s', Ok old) ->
  exists l1 b l2,
    books s = (l1 ++ b :: l2)%list /\
    hasId id b = true /\
    (forall x, In x l1 -> hasId id x = false) /\
    old = Book.price b /\
    books s' = (l1 ++ Book.withPrice (JS.parseInt price) b :: l2)%list /\
    currentId s' = currentId s.
Proof. apply updatePrice_ok_split. Qed.

Lemma updatePrice_effect_witness :
  let s := mkState [Book.mk 1 "Dune" "Frank Herbert" (JS.ofZ 1965)
                            (JS.ofZ 30) ["SCI_FI"]] 2 in
  exists l1 b l2,
    books s = (l1 ++ b :: l2)%list /\
    hasId (Some "1") b = true /\
    (forall x, In x l1 -> hasId (Some "1") x = false) /\
    JS.ofZ 30 = Book.price b /\
    books (fst (updatePrice s (Some "1") (Some "50")))
      = (l1 ++ Book.withPrice (JS.parseInt (Some "50")) b :: l2)%list /\
    currentId (fst (updatePrice s (Some "1") (Some "50"))) = currentId s.
Proof.
  intros s.
  apply (updatePrice_effect s (fst (updatePrice s (Some "1") (Some "50")))
           (Some "1") (Some "50") (JS.ofZ 30)).
  reflexivity.
Defined.

Lemma deleteBook_ok_split (s s' : state) (id : option string) (n : Z) :
  deleteBook s id = (s', Ok n) ->
  exists l1 b l2,
    books s = (l1 ++ b :: l2)%list /\
    hasId id b = true /\
    (forall x, In x l1 -> hasId id x = false) /\
    books s' = (l1 ++ l2)%list /\
    n = Z.of_nat (List.length (books s)) - 1 /\
    currentId s' = currentId s.
Proof.
  unfold deleteBook.
  destruct (findIndex (hasId id) (books s) =? -1) eqn:E; [discriminate|].
  apply Z.eqb_neq in E. intros [= <- <-].
  destruct (find (hasId id) (books s)) as [b|] eqn:Ef;
    [|now apply findIndex_none in Ef].
  destruct (find_split _ _ _ Ef) as (l1 & l2 & Hs & Hb & Hl).
  exists l1, b, l2. simpl. rewrite Hs.
  rewrite findIndex_first, splice1_middle by trivial.
  repeat split; trivial. rewrite !length_app. simpl. lia.
Qed.

(** X2. A successful delete removes the first record with the identifier and
    nothing else: the other records stay, in their order, the counter stays,
    and the answer is the number of records left. *)
Theorem deleteBook_effect (s s' : state) (id : option string) (n : Z) :
  deleteBook s id = (s', Ok n) ->
  exists l1 b l2,
    books s = (l1 ++ b :: l2)%list /\
    hasId id b = true /\
    (forall x, In x l1 -> hasId id x = false) /\
    books s' = (l1 ++ l2)%list /\
    n = Z.of_nat (List.length (books s)) - 1 /\
    currentId s' = currentId s.
Proof. apply deleteBook_ok_split. Qed.

Lemma deleteBook_effect_witness :
  let s := mkState [Book.mk 1 "Dune" "Frank Herbert" (JS.ofZ 1965)
                            (JS.ofZ 30) ["SCI_FI"]] 2 in
  exists l1 b l2,
    books s = (l1 ++ b :: l2)%list /\
    hasId (Some "1") b = true /\
    (forall x, In x l1 -> hasId (Some "1") x = false) /\
    books (mkState [] 2) = (l1 ++ l2)%list /\
    0 = Z.of_nat (List.length (books s)) - 1 /\
    currentId (mkState [] 2) = currentId s.
Proof.
  intros s.
  apply (deleteBook_effect s (mkState [] 2) (Some "1") 0). reflexivity.
Defined.

Lemma not_found_iff (s : state) (id price : option string) :
  (getBook s id = Err NotFound <->
     (forall b, In b (books s) -> hasId id b = false)) /\
  (updatePrice s id price = (s, Err NotFound) <->
     getBook s id = Err NotFound) /\
  (deleteBook s id = (s, Err NotFound) <-> getBook s id = Err NotFound).
Proof.
  unfold getBook, updatePrice, deleteBook.
  rewrite <- find_none_iff.
  destruct (find (hasId id) (books s)) as [b|] eqn:Ef.
  - assert (Hi : findIndex (hasId id) (books s) <> -1).
    { intros H. apply findIndex_none in H. congruence. }
    apply Z.eqb_neq in Hi. rewrite Hi.
    repeat split; try discriminate.
    destruct (JS.le _ _); discriminate.
  - apply findIndex_none in Ef. rewrite Ef. simpl. tauto.
Qed.

(** X3. The three handlers that take an identifier agree on which
    identifiers exist: each answers NotFound exactly when no live record
    has the identifier, and then leaves the store alone. *)
Theorem by_id_handlers_agree (s : state) (id price : option string) :
  (getBook s id = Err NotFound <->
     (forall b, In b (books s) -> hasId id b = false)) /\
  (updatePrice s id price = (s, Err NotFound) <->
     getBook s id = Err NotFound) /\
  (deleteBook s id = (s, Err NotFound) <-> getBook s id = Err NotFound).
Proof. apply not_found_iff. Qed.

Lemma eq_nan_r (n : JS.number) : JS.eq n JS.NaN = false.
Proof. now destruct n. Qed.

(** X4. An identifier parameter that is absent, or that is not a number
    ("abc"), names no record: get, update and delete answer NotFound
    whatever the store holds. *)
Theorem unreadable_id_not_found (s : state) (id price : option string) :
  JS.toNumber id = JS.NaN ->
  getBook s id = Err NotFound /\
  updatePrice s id price = (s, Err NotFound) /\
  deleteBook s id = (s, Err NotFound).
Proof.
  intros Hn.
  destruct (not_found_iff s id price) as (Hg & Hu & Hd).
  assert (H : getBook s id = Err NotFound).
  { apply Hg. intros b _. unfold hasId, JS.looseEq.
    destruct id as [x|]; trivial. simpl in Hn. rewrite Hn. apply eq_nan_r. }
  split; [|split]; trivial; [now apply Hu | now apply Hd].
Qed.

Lemma unreadable_id_not_found_witness :
  let s := mkState [Book.mk 1 "Dune" "Frank Herbert" (JS.ofZ 1965)
                            (JS.ofZ 30) ["SCI_FI"]] 2 in
  getBook s (Some "one") = Err NotFound /\
  updatePrice s (Some "one") (Some "5") = (s, Err NotFound) /\
  deleteBook s (Some "one") = (s, Err NotFound).
Proof.
  intros s. apply (unreadable_id_not_found s (Some "one") (Some "5")).
  reflexivity.
Defined.

Lemma hasId_withPrice (id : option string) (v : JS.number) (b : Book.t) :
  hasId id (Book.withPrice v b) = hasId id b.
Proof. reflexivity. Qed.

(** X5. After a successful update a get on the same identifier answers the
    record that a get answered before, with the new price. *)
Theorem updatePrice_then_get (s s' : state) (id price : option string)
    (old : JS.number) :
  updatePrice s id price = (s', Ok old) ->
  exists b,
    getBook s id = Ok b /\
    Book.price b = old /\
    getBook s' id = Ok (Book.withPrice (JS.parseInt price) b).
Proof.
  intros H. apply updatePrice_ok_split in H
    as (l1 & b & l2 & Hs & Hb & Hl & -> & Hs' & _).
  exists b. unfold getBook. rewrite Hs, Hs'.
  rewrite !find_first; auto.
Qed.

Lemma updatePrice_then_get_witness :
  let s := mkState [Book.mk 1 "Dune" "Frank Herbert" (JS.ofZ 1965)
                            (JS.ofZ 30) ["SCI_FI"]] 2 in
  exists b,
    getBook s (Some "1") = Ok b /\
    Book.price b = JS.ofZ 30 /\
    getBook (fst (updatePrice s (Some "1") (Some "50"))) (Some "1")
      = Ok (Book.withPrice (JS.parseInt (Some "50")) b).
Proof.
  intros s.
  apply (updatePrice_then_get s (fst (updatePrice s (Some "1") (Some "50")))
           (Some "1") (Some "50") (JS.ofZ 30)).
  reflexivity.
Defined.

(** ** Invariants of the store *)

Lemma inject_Z_eqb (a b : Z) (q : Q) :
  Qeq_bool (inject_Z a) q = true -> Qeq_bool (inject_Z b) q = true -> a = b.
Proof.
  intros Ha Hb. apply Qeq_bool_iff in Ha, Hb.
  apply inject_Z_injective. now rewrite Ha, Hb.
Qed.

(** Two records with the identifier a parameter names have the same
    identifier. *)
Lemma hasId_same (id : option string) (a b : Book.t) :
  hasId id a = true -> hasId id b = true -> Book.id a = Book.id b.
Proof.
  unfold hasId, JS.looseEq. destruct id as [x|]; [|discriminate].
  unfold JS.ofZ, JS.eq. destruct (JS.stringToNumber x); try discriminate.
  apply inject_Z_eqb.
Qed.

Lemma succ_bounds (n : Z) : n <= JS.succ n <= n + 1.
Proof. unfold JS.succ. destruct (n <? 2 ^ 53); lia. Qed.

Lemma assignPrice_map {K : Type} (f : Book.t -> K) (p : Book.t -> bool)
    (v : JS.number) (l : list Book.t) :
  (forall b, f (Book.withPrice v b) = f b) ->
  map f (assignPrice p v l) = map f l.
Proof.
  intros Hf. induction l as [|b r IH]; simpl; trivial.
  destruct (p b); simpl; [now rewrite Hf | now rewrite IH].
Qed.

Section Reachable.

Variable localeCompare : string -> string -> Z.

(** A property of single records that the assignment to [price] keeps, and
    that a record has when its creation succeeds, holds of every live
    record after the request. *)
Lemma step_keeps_created (P : Book.t -> Prop) (s : state) (o : op) :
  (forall v b, P b -> P (Book.withPrice v b)) ->
  (forall t a y p g s' n,
     o = Create t a y p g -> create s t a y p g = (s', Ok n) ->
     P (Book.mk n t a y p g)) ->
  Forall P (books s) -> Forall P (books (fst (step localeCompare s o))).
Proof.
  intros HP Ho Hs. destruct o as [t a y p g|i|i p|i|q|q]; simpl; trivial.
  - specialize (Ho t a y p g). unfold create in *.
    destruct (find _ _); trivial.
    destruct (_ || _); trivial. destruct (JS.le _ _); trivial.
    simpl. apply Forall_app. split; trivial.
    constructor; [|constructor]. eapply Ho; reflexivity.
  - unfold updatePrice. destruct (find _ _); trivial.
    destruct (JS.le _ _); trivial. simpl. apply assignPrice_keeps; auto.
  - unfold deleteBook. destruct (_ =? _); trivial. simpl.
    rewrite Forall_forall in *. intros b Hb.
    apply Hs. now apply In_splice1 in Hb.
  - pose proof (filteredCount_keeps_store s q) as H.
    destruct (filteredCount s q). simpl in *. now subst.
  - pose proof (proj1 (filteredList_permutes_store localeCompare s q)) as H.
    destruct (filteredList localeCompare s q). simpl in *.
    now apply (Permutation_Forall H).
Qed.

(** The records stay distinct under a key that the assignment to [price]
    keeps, when the key of a record created is not the key of a live one. *)
Lemma step_keeps_distinct {K : Type} (f : Book.t -> K) (s : state) (o : op) :
  (forall v b, f (Book.withPrice v b) = f b) ->
  (forall t a y p g s' n,
     o = Create t a y p g -> create s t a y p g = (s', Ok n) ->
     ~ In (f (Book.mk n t a y p g)) (map f (books s))) ->
  NoDup (map f (books s)) ->
  NoDup (map f (books (fst (step localeCompare s o)))).
Proof.
  intros Hf Ho Hs. destruct o as [t a y p g|i|i p|i|q|q]; simpl; trivial.
  - specialize (Ho t a y p g). unfold create in *.
    destruct (find _ _); trivial.
    destruct (_ || _); trivial. destruct (JS.le _ _); trivial.
    simpl. rewrite map_app. apply NoDup_app; trivial.
    + repeat constructor. simpl. tauto.
    + intros k Hk [<-|[]]. revert Hk. eapply Ho; reflexivity.
  - unfold updatePrice. destruct (find _ _); trivial.
    destruct (JS.le _ _); trivial. simpl. now rewrite assignPrice_map.
  - destruct (deleteBook s i) as [s' [n|e]] eqn:E.
    + apply deleteBook_ok_split in E as (l1 & b & l2 & H1 & _ & _ & H2 & _).
      simpl. rewrite H1 in Hs. rewrite H2.
      rewrite map_app in *. simpl in Hs. now apply NoDup_remove_1 in Hs.
    + unfold deleteBook in E. destruct (_ =? _); [|discriminate].
      injection E as <- _. exact Hs.
  - pose proof (filteredCount_keeps_store s q) as H.
    destruct (filteredCount s q). simpl in *. now subst.
  - pose proof (proj1 (filteredList_permutes_store localeCompare s q)) as H.
    destruct (filteredList localeCompare s q). simpl in *.
    eapply Permutation_NoDup; [|exact Hs]. now apply Permutation_map.
Qed.

End Reachable.

Section Runs.

Variable localeCompare : string -> string -> Z.

Lemma run_cons (s : state) (o : op) (rest : list op) :
  fst (run localeCompare s (o :: rest)) =
    fst (run localeCompare (fst (step localeCompare s o)) rest).
Proof.
  simpl. destruct (step localeCompare s o) as [s1 r]. simpl.
  now destruct (run localeCompare s1 rest).
Qed.

(** An invariant of single requests is an invariant of sequences. *)
Lemma run_invariant (I : state -> Prop) (R : op -> Prop) :
  (forall s o, R o -> I s -> I (fst (step localeCompare s o))) ->
  forall ops s, Forall R ops -> I s -> I (fst (run localeCompare s ops)).
Proof.
  intros Hstep. induction ops as [|o rest IH]; intros s Hops Hs; trivial.
  rewrite run_cons. inversion Hops; subst. apply IH; auto.
Qed.

Lemma create_ok_title (s s' : state) (t a : string) (y p : JS.number)
    (g : list string) (n : Z) :
  create s t a y p g = (s', Ok n) ->
  ~ In (JS.toLowerCase t) (map titleKey (books s)).
Proof.
  unfold create.
  destruct (find (sameTitle t) (books s)) eqn:Ef; [discriminate|].
  intros _ Hin. apply in_map_iff in Hin as (b & Hb & Hin).
  pose proof (find_none _ _ Ef b Hin) as Hn. unfold sameTitle in Hn.
  unfold titleKey in Hb. rewrite Hb, String.eqb_refl in Hn. discriminate.
Qed.

Lemma step_distinctTitles (s : state) (o : op) :
  distinctTitles s -> distinctTitles (fst (step localeCompare s o)).
Proof.
  apply step_keeps_distinct; [reflexivity|].
  intros t a y p g s' n _ Hc. exact (create_ok_title _ _ _ _ _ _ _ _ Hc).
Qed.

(** X6. Whatever requests are served from the empty store, no two live
    records have the same title up to case: [create] refuses a taken title
    and no other request changes a title. *)
Theorem titles_stay_distinct (ops : list op) :
  distinctTitles (fst (run localeCompare initial ops)).
Proof.
  apply (run_invariant distinctTitles (fun _ => True)).
  - intros s o _. apply step_distinctTitles.
  - clear. induction ops; constructor; trivial.
  - constructor.
Qed.

Lemma create_ok_year (s s' : state) (t a : string) (y p : JS.number)
    (g : list string) (n : Z) :
  y <> JS.NaN -> create s t a y p g = (s', Ok n) -> yearInRange y.
Proof.
  intros Hy. unfold create. destruct (find _ _); [discriminate|].
  destruct (_ || _) eqn:E; [discriminate|]. intros _.
  now apply yearInRange_iff.
Qed.

(** X7. Whatever requests are served from the empty store, every live
    record has its year in [1940, 2100], as long as the years the creations
    carry are numbers: no request changes a year. *)
Theorem years_stay_in_range (ops : list op) :
  Forall yearIsNumber ops ->
  Forall (fun b => yearInRange (Book.year b))
         (books (fst (run localeCompare initial ops))).
Proof.
  intros Hops.
  apply (run_invariant
           (fun s => Forall (fun b => yearInRange (Book.year b)) (books s))
           yearIsNumber); trivial.
  intros s o Ho. apply step_keeps_created; trivial.
  intros t a y p g s' n -> Hc. simpl in *. eapply create_ok_year; eauto.
Qed.

(** The counter never goes back, and moves by one at most. *)
Lemma step_counter_bounds (s : state) (o : op) :
  currentId s <= currentId (fst (step localeCompare s o)) <= currentId s + 1.
Proof.
  destruct (isCreated (snd (step localeCompare s o))) eqn:E.
  - destruct o as [t a y p g|i|i p|i|q|q]; simpl in *;
      try (destruct (updatePrice s i p)); try (destruct (deleteBook s i));
      try (destruct (filteredCount s q));
      try (destruct (filteredList localeCompare s q)); try discriminate.
    destruct (create s t a y p g) as [s' [n|e]] eqn:Ec; [|discriminate].
    simpl. apply create_ok in Ec as (_ & ->). apply succ_bounds.
  - rewrite (step_counter _ _ _ E). lia.
Qed.

(** The two facts about identifiers that one request keeps, below the
    limit of the counter. *)
Lemma step_ids (s : state) (o : op) :
  1 <= currentId s < 2 ^ 53 ->
  idsAllocated s /\ distinctIds s ->
  idsAllocated (fst (step localeCompare s o)) /\
  distinctIds (fst (step localeCompare s o)).
Proof.
  intros Hc (Ha & Hd).
  pose proof (step_counter_bounds s o) as Hb. split.
  - apply step_keeps_created; trivial.
    + intros t a y p g s' n -> Hcr. simpl in *. rewrite Hcr. simpl.
      apply create_ok in Hcr as (-> & ->). unfold JS.succ.
      destruct (Z.ltb_spec (currentId s) (2 ^ 53)); simpl; lia.
    + eapply Forall_impl; [|exact Ha]. simpl. intros b. lia.
  - apply step_keeps_distinct; trivial.
    intros t a y p g s' n _ Hcr Hin. simpl in Hin.
    apply create_ok in Hcr as (-> & _).
    apply in_map_iff in Hin as (b & Hb' & Hin).
    unfold idsAllocated in Ha. rewrite Forall_forall in Ha.
    specialize (Ha b Hin). lia.
Qed.

(** Identifiers along a sequence of requests that is short enough for the
    counter to stay exact. *)
Lemma run_ids (ops : list op) (s : state) :
  1 <= currentId s ->
  currentId s + Z.of_nat (List.length ops) <= 2 ^ 53 ->
  idsAllocated s /\ distinctIds s ->
  idsAllocated (fst (run localeCompare s ops)) /\
  distinctIds (fst (run localeCompare s ops)).
Proof.
  revert s. induction ops as [|o rest IH]; intros s H1 Hlen Hs; trivial.
  rewrite run_cons. simpl List.length in Hlen.
  pose proof (step_counter_bounds s o) as Hb.
  apply IH; [lia | lia |]. apply step_ids; [lia | trivial].
Qed.

Lemma initial_ids : idsAllocated initial /\ distinctIds initial.
Proof. split; constructor. Qed.

(** X8. Over a sequence of fewer than [2^53] requests from the empty store
    the live records have pairwise distinct identifiers, each between 1 and
    the counter. *)
Theorem ids_stay_distinct (ops : list op) :
  1 + Z.of_nat (List.length ops) <= 2 ^ 53 ->
  distinctIds (fst (run localeCompare initial ops)) /\
  idsAllocated (fst (run localeCompare initial ops)).
Proof.
  intros Hlen.
  destruct (run_ids ops initial) as (Ha & Hd); auto using initial_ids.
  simpl. lia.
Qed.

(** With distinct identifiers a parameter names one record at most. *)
Lemma hasId_unique (s : state) (id : option string) (a b : Book.t) :
  distinctIds s -> In a (books s) -> In b (books s) ->
  hasId id a = true -> hasId id b = true -> a = b.
Proof.
  unfold distinctIds. intros Hd Ha Hb Hia Hib.
  pose proof (hasId_same id a b Hia Hib) as He. clear Hia Hib.
  induction (books s) as [|x r IH]; [contradiction|].
  simpl in Hd. apply NoDup_cons_iff in Hd as (Hx & Hr).
  destruct Ha as [->|Ha], Hb as [->|Hb]; auto.
  - elim Hx. rewrite He. now apply in_map.
  - elim Hx. rewrite <- He. now apply in_map.
Qed.

(** X9. A record just created is the one a get on its identifier answers:
    after a sequence of fewer than [2^53] requests from the empty store,
    when [create] returns [N], a get whose parameter is equal to [N] under
    [==] ("2", " 2.0 ", "0x2" for 2) answers the record made of [N] and the
    five fields given. *)
Theorem create_then_get (ops : list op) (s1 : state) (title author : string)
    (year price : JS.number) (genres : list string) (N : Z) (x : string) :
  1 + Z.of_nat (List.length ops) <= 2 ^ 53 ->
  create (fst (run localeCompare initial ops)) title author year price genres
    = (s1, Ok N) ->
  JS.looseEq (JS.ofZ N) (Some x) = true ->
  getBook s1 (Some x) = Ok (Book.mk N title author year price genres).
Proof.
  intros Hlen Hc Hx.
  destruct (run_ids ops initial) as (Ha & _); auto using initial_ids;
    [simpl; lia|].
  set (s := fst (run localeCompare initial ops)) in *.
  pose proof (create_ok _ _ _ _ _ _ _ _ Hc) as (-> & _).
  unfold create in Hc. destruct (find _ _); [discriminate|].
  destruct (_ || _); [discriminate|]. destruct (JS.le _ _); [discriminate|].
  injection Hc as <-. unfold getBook. simpl.
  rewrite find_first; trivial.
  intros b Hb. apply not_true_is_false. intros He.
  pose proof (hasId_same (Some x) b
                (Book.mk (currentId s) title author year price genres)
                He Hx) as Hid.
  unfold idsAllocated in Ha. rewrite Forall_forall in Ha.
  specialize (Ha b Hb). simpl in Hid. lia.
Qed.

(** X10. A record deleted is gone: after a sequence of fewer than [2^53]
    requests from the empty store, when a delete succeeds, a get on the
    same identifier answers NotFound. *)
Theorem delete_then_get (ops : list op) (s' : state) (id : option string)
    (n : Z) :
  1 + Z.of_nat (List.length ops) <= 2 ^ 53 ->
  deleteBook (fst (run localeCompare initial ops)) id = (s', Ok n) ->
  getBook s' id = Err NotFound.
Proof.
  intros Hlen Hdel.
  destruct (run_ids ops initial) as (_ & Hd); auto using initial_ids;
    [simpl; lia|].
  set (s := fst (run localeCompare initial ops)) in *.
  apply deleteBook_ok_split in Hdel
    as (l1 & b & l2 & Hs & Hb & Hl & Hs' & _).
  apply (proj2 (proj1 (not_found_iff s' id None))). rewrite Hs'.
  intros x Hx. apply not_true_is_false. intros Hi.
  assert (x = b).
  { apply (hasId_unique s id); trivial; rewrite Hs;
      [|apply in_elt]. apply in_app_or in Hx as [Hx|Hx];
      apply in_or_app; [now left | right; now right]. }
  subst x. unfold distinctIds in Hd. rewrite Hs, map_app in Hd. simpl in Hd.
  apply NoDup_remove_2 in Hd. apply Hd. rewrite <- map_app.
  now apply in_map.
Qed.

(** Where one element at most passes a test, [find] answers the same on a
    rearranged list. *)
Lemma find_permutation {A : Type} (p : A -> bool) (l l' : list A) :
  Permutation l l' ->
  (forall a b, In a l -> In b l -> p a = true -> p b = true -> a = b) ->
  find p l = find p l'.
Proof.
  induction 1 as [|x l l' Hp IH|x y l|l l' l'' Hp1 IH1 Hp2 IH2];
    intros Hu; simpl; trivial.
  - destruct (p x); trivial. apply IH. intros a b Ha Hb. apply Hu; now right.
  - destruct (p x) eqn:Ex, (p y) eqn:Ey; trivial.
    f_equal. apply Hu; simpl; auto.
  - rewrite IH1 by trivial. apply IH2. intros a b Ha Hb.
    apply Hu; apply (Permutation_in _ (Permutation_sym Hp1)); trivial.
Qed.

(** X11. The order the listing leaves the store in is not seen by a get:
    after a sequence of fewer than [2^53] requests from the empty store, a
    get answers the same before and after a listing, for every
    identifier. *)
Theorem listing_keeps_get (ops : list op) (query : Query.t)
    (id : option string) :
  1 + Z.of_nat (List.length ops) <= 2 ^ 53 ->
  getBook (fst (filteredList localeCompare
                  (fst (run localeCompare initial ops)) query)) id
  = getBook (fst (run localeCompare initial ops)) id.
Proof.
  intros Hlen.
  destruct (run_ids ops initial) as (_ & Hd); auto using initial_ids;
    [simpl; lia|].
  set (s := fst (run localeCompare initial ops)) in *.
  unfold getBook.
  rewrite <- (find_permutation (hasId id) (books s)
                (books (fst (filteredList localeCompare s query)))); trivial.
  - apply filteredList_permutes_store.
  - intros a b. now apply hasId_unique.
Qed.

End Runs.

Lemma years_stay_in_range_witness :
  Forall (fun b => yearInRange (Book.year b))
         (books (fst (run codeUnitCompare initial
            [Create "Dune" "Frank Herbert" (JS.ofZ 1965) (JS.ofZ 30)
                    ["SCI_FI"];
             Create "Ulysses" "James Joyce" (JS.ofZ 1922) (JS.ofZ 25)
                    ["NOVEL"];
             UpdatePrice (Some "1") (Some "45")]))).
Proof.
  apply (years_stay_in_range codeUnitCompare).
  repeat constructor; discriminate.
Defined.

Lemma ids_stay_distinct_witness :
  let s := fst (run codeUnitCompare initial
             [Create "Dune" "Frank Herbert" (JS.ofZ 1965) (JS.ofZ 30)
                     ["SCI_FI"];
              Delete (Some "1");
              Create "Emma" "Jane Austen" (JS.ofZ 1950) (JS.ofZ 12)
                     ["NOVEL"]]) in
  distinctIds s /\ idsAllocated s.
Proof.
  intros s. apply (ids_stay_distinct codeUnitCompare). simpl. lia.
Defined.

Lemma create_then_get_witness :
  getBook
    (fst (create (fst (run codeUnitCompare initial
                         [Create "Dune" "Frank Herbert" (JS.ofZ 1965)
                                 (JS.ofZ 30) ["SCI_FI"]]))
                 "Emma" "Jane Austen" (JS.ofZ 1950) (JS.ofZ 12) ["NOVEL"]))
    (Some " 2.0 ")
  = Ok (Book.mk 2 "Emma" "Jane Austen" (JS.ofZ 1950) (JS.ofZ 12) ["NOVEL"]).
Proof.
  apply (create_then_get codeUnitCompare
           [Create "Dune" "Frank Herbert" (JS.ofZ 1965) (JS.ofZ 30)
                   ["SCI_FI"]]).
  - simpl. lia.
  - reflexivity.
  - reflexivity.
Defined.

Lemma delete_then_get_witness :
  getBook
    (fst (deleteBook (fst (run codeUnitCompare initial
                             [Create "Dune" "Frank Herbert" (JS.ofZ 1965)
                                     (JS.ofZ 30) ["SCI_FI"]]))
                     (Some "1")))
    (Some "1")
  = Err NotFound.
Proof.
  apply (delete_then_get codeUnitCompare
           [Create "Dune" "Frank Herbert" (JS.ofZ 1965) (JS.ofZ 30)
                   ["SCI_FI"]] _ (Some "1") 0).
  - simpl. lia.
  - reflexivity.
Defined.

Lemma listing_keeps_get_witness :
  let ops := [Create "Beta" "B. Author" (JS.ofZ 2001) (JS.ofZ 30) ["NOVEL"];
              Create "alpha" "A. Author" (JS.ofZ 2002) (JS.ofZ 20)
                     ["MANGA"]] in
  getBook (fst (filteredList codeUnitCompare
                  (fst (run codeUnitCompare initial ops)) Query.empty))
          (Some "1")
  = getBook (fst (run codeUnitCompare initial ops)) (Some "1").
Proof.
  intros ops. apply (listing_keeps_get codeUnitCompare ops). simpl. lia.
Defined.

(** ** The listing for every query *)

Lemma passesGenres_iff (q : Query.t) (b : Book.t) :
  passesGenres q b = true <-> meetsGenres q b.
Proof.
  unfold passesGenres, meetsGenres. rewrite passes_iff.
  now setoid_rewrite someGenreIn_iff.
Qed.

Lemma genresValid_dec (q : Query.t) :
  match Query.genres q with
  | Some g =>
      if JS.truthy (Some g)
      then forallb (fun genre => JS.includes validGenres genre) (genreList g)
             = true <-> genresValid q
      else genresValid q
  | None => genresValid q
  end.
Proof.
  unfold genresValid. destruct (Query.genres q) as [g|]; [|discriminate].
  destruct (JS.truthy (Some g)) eqn:T.
  - rewrite allValid_iff. apply truthy_some in T. split.
    + now intros H g' [= <-] _.
    + intros H. now apply H.
  - intros g' [= <-] Hg. apply truthy_some in Hg. congruence.
Qed.

(** What [filterBooks] answers: an error on a tag outside the catalog, and
    otherwise an array of the records that pass all the criteria, in the
    order of the store. *)
Lemma filterBooks_spec (s : state) (q : Query.t) :
  (genresValid q ->
     exists a, filterBooks s q = Ok a /\
               elements s a = filter (passesAll q) (books s)) /\
  (~ genresValid q -> filterBooks s q = Err InvalidGenre).
Proof.
  pose proof (genresValid_dec q) as Hd.
  unfold filterBooks, filterGenres, passesAll, passesGenres, passes.
  destruct (Query.genres q) as [g|].
  - destruct (JS.truthy (Some g)).
    + destruct (forallb _ (genreList g)) eqn:Ev; simpl.
      * split; [|intros H; elim H; now apply Hd]. intros _.
        eexists. split; [reflexivity|].
        rewrite filterRest_elements. simpl. apply filter_filter.
      * split; trivial. intros H. apply Hd in H. discriminate.
    + split; [|contradiction]. intros _. eexists. split; [reflexivity|].
      now rewrite filterRest_elements.
  - split; [|contradiction]. intros _. eexists. split; [reflexivity|].
    now rewrite filterRest_elements.
Qed.

Section ListingFacts.

Variable localeCompare : string -> string -> Z.

Hypothesis localeCompare_total :
  forall a b, localeCompare a b <= 0 \/ localeCompare b a <= 0.

(** X12. For every query, with or without a genres list: when the genres
    list names a tag outside the catalog both entry points fail with
    InvalidGenre; otherwise the list is the views of exactly the live
    records that meet every criterion the query carries, in the order of
    their titles, case ignored, and the count is their number. *)
Theorem listing_characterised (s : state) (q : Query.t) :
  (~ genresValid q ->
     snd (filteredList localeCompare s q) = Err InvalidGenre /\
     snd (filteredCount s q) = Err InvalidGenre) /\
  (genresValid q ->
     exists l,
       snd (filteredList localeCompare s q) = Ok (map View.project l) /\
       snd (filteredCount s q) = Ok (Z.of_nat (List.length l)) /\
       Permutation l (filter (passesAll q) (books s)) /\
       (forall b, In b l <->
          In b (books s) /\ meetsGenres q b /\ meetsRest q b) /\
       Sorted (titleOrder localeCompare) l).
Proof.
  destruct (filterBooks_spec s q) as (Hv & Hi).
  unfold filteredList, filteredCount. split.
  - intros H. now rewrite (Hi H).
  - intros H. destruct (Hv H) as (a & -> & He). simpl. rewrite He.
    exists (sort localeCompare (filter (passesAll q) (books s))).
    split; [reflexivity|]. split; [now rewrite sort_length|].
    split; [symmetry; apply sort_perm|].
    split; [|now apply sort_sorted].
    intros b. rewrite <- passesGenres_iff, <- passesRest_iff.
    split.
    + intros Hb.
      apply (Permutation_in _ (Permutation_sym (sort_perm _ _))) in Hb.
      apply filter_In in Hb as (H1 & H2).
      apply andb_true_iff in H2. tauto.
    + intros (H1 & H2 & H3). apply (Permutation_in _ (sort_perm _ _)).
      apply filter_In. split; trivial. now apply andb_true_iff.
Qed.

End ListingFacts.

Lemma listing_characterised_witness :
  let s := fst (create initial "Dune" "Frank Herbert" (JS.ofZ 1965)
                       (JS.ofZ 30) ["SCI_FI"]) in
  let q := Query.mk (Some "frank herbert") (Some "10") None None None None in
  exists l,
    snd (filteredList codeUnitCompare s q) = Ok (map View.project l) /\
    snd (filteredCount s q) = Ok (Z.of_nat (List.length l)) /\
    Permutation l (filter (passesAll q) (books s)) /\
    (forall b, In b l <->
       In b (books s) /\ meetsGenres q b /\ meetsRest q b) /\
    Sorted (titleOrder codeUnitCompare) l.
Proof.
  intros s q.
  apply (listing_characterised codeUnitCompare codeUnitCompare_total s q).
  intros g Hg. discriminate Hg.
Defined.

(** ** How queries compare *)

Lemma passes_dropped (v' v : option string) (p : string -> Book.t -> bool)
    (b : Book.t) :
  sameOrDropped v' v -> passes v p b = true -> passes v' p b = true.
Proof.
  intros [->|H]; trivial. intros _. unfold passes.
  destruct v'; trivial. now rewrite H.
Qed.

Lemma passesAll_dropped (q' q : Query.t) (b : Book.t) :
  dropsCriteria q' q -> passesAll q b = true -> passesAll q' b = true.
Proof.
  intros (H1 & H2 & H3 & H4 & H5 & H6).
  unfold passesAll, passesGenres, passesRest.
  rewrite !andb_true_iff. intros (Hg & (((Ha & Hb) & Hc) & Hd) & He).
  repeat split; eapply passes_dropped; eauto.
Qed.

Lemma genresValid_dropped (q' q : Query.t) :
  dropsCriteria q' q -> genresValid q -> genresValid q'.
Proof.
  intros (_ & _ & _ & _ & _ & [H|H]) Hv g Hg Hne.
  - rewrite H in Hg. now apply (Hv g).
  - rewrite Hg in H. apply truthy_some in Hne. congruence.
Qed.

Lemma filter_incl_length {A : Type} (p p' : A -> bool) (l : list A) :
  (forall x, p x = true -> p' x = true) ->
  (List.length (filter p l) <= List.length (filter p' l))%nat.
Proof.
  intros H. induction l as [|x r IH]; simpl; trivial.
  destruct (p x) eqn:E.
  - rewrite (H x E). simpl. lia.
  - destruct (p' x); simpl; lia.
Qed.

Lemma filterBooks_ok_valid (s : state) (q : Query.t) (a : bookArray) :
  filterBooks s q = Ok a -> genresValid q.
Proof.
  intros H. pose proof (genresValid_dec q) as Hd.
  unfold filterBooks, filterGenres in H.
  destruct (Query.genres q) as [g|]; trivial.
  destruct (JS.truthy (Some g)); trivial.
  destruct (forallb _ (genreList g)); [now apply Hd | discriminate].
Qed.

(** X13. Leaving criteria out of a query never loses a record: when a
    query succeeds, the query with some of its parameters left out
    succeeds too, lists every record the first one lists, and counts at
    least as many, at most the number of live records. *)
Theorem dropping_criteria_keeps_records
    (localeCompare : string -> string -> Z)
    (s : state) (q' q : Query.t) (n : Z) (l : list View.t) :
  dropsCriteria q' q ->
  snd (filteredCount s q) = Ok n ->
  snd (filteredList localeCompare s q) = Ok l ->
  exists n' l',
    snd (filteredCount s q') = Ok n' /\
    snd (filteredList localeCompare s q') = Ok l' /\
    n <= n' <= Z.of_nat (List.length (books s)) /\
    (forall v, In v l -> In v l').
Proof.
  intros Hd. unfold filteredCount, filteredList.
  destruct (filterBooks s q) as [a|e] eqn:E; [|discriminate].
  simpl. intros [= <-] [= <-].
  pose proof (filterBooks_ok_valid _ _ _ E) as Hv.
  destruct (proj1 (filterBooks_spec s q) Hv) as (a0 & E0 & He).
  rewrite E in E0. injection E0 as <-.
  destruct (proj1 (filterBooks_spec s q')
                  (genresValid_dropped _ _ Hd Hv)) as (a' & -> & He').
  simpl. rewrite He, He'. do 2 eexists.
  split; [reflexivity|]. split; [reflexivity|]. split.
  - pose proof (filter_incl_length (passesAll q) (passesAll q') (books s)
                  (fun b => passesAll_dropped q' q b Hd)).
    pose proof (filter_length_le (passesAll q') (books s)). lia.
  - intros v Hin. apply in_map_iff in Hin as (b & <- & Hb).
    apply in_map.
    apply (Permutation_in _ (Permutation_sym (sort_perm _ _))) in Hb.
    apply (Permutation_in _ (sort_perm _ _)).
    apply filter_In in Hb as (H1 & H2). apply filter_In.
    split; trivial. now apply (passesAll_dropped q' q).
Qed.

Lemma dropping_criteria_keeps_records_witness :
  let s := fst (run codeUnitCompare initial
             [Create "Dune" "Frank Herbert" (JS.ofZ 1965) (JS.ofZ 30)
                     ["SCI_FI"];
              Create "Emma" "Jane Austen" (JS.ofZ 1950) (JS.ofZ 12)
                     ["NOVEL"]]) in
  let q := Query.mk None (Some "20") None None None (Some "SCI_FI") in
  let q' := Query.mk None None None None None (Some "SCI_FI") in
  exists n' l',
    snd (filteredCount s q') = Ok n' /\
    snd (filteredList codeUnitCompare s q') = Ok l' /\
    1 <= n' <= Z.of_nat (List.length (books s)) /\
    (forall v, In v [View.mk 1 "Dune" "Frank Herbert" (JS.ofZ 30)
                             (JS.ofZ 1965) ["SCI_FI"]] -> In v l').
Proof.
  intros s q q'.
  apply (dropping_criteria_keeps_records codeUnitCompare s q' q).
  - unfold dropsCriteria, sameOrDropped. simpl. auto 10.
  - reflexivity.
  - reflexivity.
Defined.

Lemma mapString_empty (f : ascii -> ascii) (a : string) :
  JS.mapString f a = "" <-> a = "".
Proof. destruct a; simpl; split; congruence. Qed.

Lemma sameIgnoringCase_truthy (a a' : string) :
  sameIgnoringCase a a' -> JS.truthy (Some a) = JS.truthy (Some a').
Proof.
  unfold sameIgnoringCase, JS.toLowerCase. intros H.
  apply eq_true_iff_eq. rewrite !truthy_some.
  rewrite <- (mapString_empty JS.lowerChar a),
          <- (mapString_empty JS.lowerChar a'), H. reflexivity.
Qed.

(** X14. The author criterion ignores case: two queries that differ only
    by the case of the letters of the author give the same count and the
    same list. *)
Theorem author_case_ignored
    (localeCompare : string -> string -> Z) (s : state) (a a' : string)
    (pb pl yb yl g : option string) :
  sameIgnoringCase a a' ->
  filteredCount s (Query.mk (Some a) pb pl yb yl g) =
    filteredCount s (Query.mk (Some a') pb pl yb yl g) /\
  filteredList localeCompare s (Query.mk (Some a) pb pl yb yl g) =
    filteredList localeCompare s (Query.mk (Some a') pb pl yb yl g).
Proof.
  intros H.
  assert (E : filterBooks s (Query.mk (Some a) pb pl yb yl g) =
              filterBooks s (Query.mk (Some a') pb pl yb yl g)).
  { assert (Ea : forall arr,
               filterIf s (Some a) authorIs arr =
               filterIf s (Some a') authorIs arr).
    { intros arr. unfold filterIf.
      rewrite (sameIgnoringCase_truthy a a' H).
      destruct (JS.truthy (Some a')); trivial.
      unfold arrayFilter. f_equal. apply filter_ext. intros b.
      unfold authorIs. unfold sameIgnoringCase in H. now rewrite H. }
    unfold filterBooks, filterRest.
    cbn [Query.author Query.priceBiggerThan Query.priceLessThan
         Query.yearBiggerThan Query.yearLessThan Query.genres].
    destruct (filterGenres s g StoreArray) as [arr|e]; trivial.
    now rewrite Ea. }
  unfold filteredCount, filteredList. now rewrite E.
Qed.

Lemma author_case_ignored_witness :
  let s := fst (create initial "Dune" "Frank Herbert" (JS.ofZ 1965)
                       (JS.ofZ 30) ["SCI_FI"]) in
  filteredCount s (Query.mk (Some "FRANK HERBERT") None None None None None)
  = filteredCount s (Query.mk (Some "frank herbert") None None None None None)
  /\
  filteredList codeUnitCompare s
    (Query.mk (Some "FRANK HERBERT") None None None None None)
  = filteredList codeUnitCompare s
      (Query.mk (Some "frank herbert") None None None None None).
Proof.
  intros s. apply (author_case_ignored codeUnitCompare). reflexivity.
Defined.

Lemma includes_same (tags tags' : list string) (t : string) :
  (forall x, In x tags <-> In x tags') ->
  JS.includes tags t = JS.includes tags' t.
Proof.
  intros H. apply eq_true_iff_eq. rewrite !includes_iff. apply H.
Qed.

(** X15. The genres criterion reads its list as a set: two non-empty
    genres parameters that name the same tags, in whatever order and
    however often, give the same count and the same list, and fail
    together. *)
Theorem genres_order_ignored
    (localeCompare : string -> string -> Z) (s : state) (g g' : string)
    (a pb pl yb yl : option string) :
  g <> "" -> g' <> "" ->
  (forall t, In t (genreList g) <-> In t (genreList g')) ->
  filteredCount s (Query.mk a pb pl yb yl (Some g)) =
    filteredCount s (Query.mk a pb pl yb yl (Some g')) /\
  filteredList localeCompare s (Query.mk a pb pl yb yl (Some g)) =
    filteredList localeCompare s (Query.mk a pb pl yb yl (Some g')).
Proof.
  intros Hg Hg' H.
  assert (E : filterBooks s (Query.mk a pb pl yb yl (Some g)) =
              filterBooks s (Query.mk a pb pl yb yl (Some g'))).
  { unfold filterBooks, filterGenres. simpl Query.genres.
    apply truthy_some in Hg, Hg'. rewrite Hg, Hg'.
    assert (Ev : forallb (fun genre => JS.includes validGenres genre)
                         (genreList g) =
                 forallb (fun genre => JS.includes validGenres genre)
                         (genreList g')).
    { apply eq_true_iff_eq. rewrite !allValid_iff. split; intros Hv t Ht;
        apply Hv; now apply H. }
    rewrite Ev. destruct (forallb _ (genreList g')); simpl; trivial.
    assert (Ef : arrayFilter s (someGenreIn (genreList g)) StoreArray =
                 arrayFilter s (someGenreIn (genreList g')) StoreArray).
    { unfold arrayFilter. f_equal. apply filter_ext. intros b.
      unfold someGenreIn.
      induction (Book.genres b) as [|t r IH]; simpl; trivial.
      now rewrite IH, (includes_same _ _ t H). }
    now rewrite Ef. }
  unfold filteredCount, filteredList. now rewrite E.
Qed.

Lemma genres_order_ignored_witness :
  let s := fst (create initial "Dune" "Frank Herbert" (JS.ofZ 1965)
                       (JS.ofZ 30) ["SCI_FI"]) in
  filteredCount s (Query.mk None None None None None (Some "SCI_FI,NOVEL"))
  = filteredCount s
      (Query.mk None None None None None (Some "NOVEL,SCI_FI,NOVEL"))
  /\
  filteredList codeUnitCompare s
    (Query.mk None None None None None (Some "SCI_FI,NOVEL"))
  = filteredList codeUnitCompare s
      (Query.mk None None None None None (Some "NOVEL,SCI_FI,NOVEL")).
Proof.
  intros s. apply (genres_order_ignored codeUnitCompare);
    try discriminate.
  intros t. simpl. tauto.
Defined.

(** ** Listing twice *)

(** Which array [filterBooks] answers depends on the query alone. *)
Lemma filterBooks_store_array (s s' : state) (q : Query.t) :
  filterBooks s q = Ok StoreArray -> filterBooks s' q = Ok StoreArray.
Proof.
  unfold filterBooks, filterGenres, filterRest, filterIf, arrayFilter.
  destruct (Query.genres q) as [g|];
    [destruct (JS.truthy (Some g));
       [destruct (forallb _ (genreList g)); simpl|]|];
    destruct (Query.author q) as [x1|];
    try destruct (JS.truthy (Some x1));
    destruct (Query.priceBiggerThan q) as [x2|];
    try destruct (JS.truthy (Some x2));
    destruct (Query.priceLessThan q) as [x3|];
    try destruct (JS.truthy (Some x3));
    destruct (Query.yearBiggerThan q) as [x4|];
    try destruct (JS.truthy (Some x4));
    destruct (Query.yearLessThan q) as [x5|];
    try destruct (JS.truthy (Some x5));
    simpl; trivial; discriminate.
Qed.

Section Twice.

Variable localeCompare : string -> string -> Z.

Hypothesis localeCompare_total :
  forall a b, localeCompare a b <= 0 \/ localeCompare b a <= 0.

(** Sorting a list that is in order leaves it as it is. *)
Lemma sort_sorted_id (l : list Book.t) :
  Sorted (titleOrder localeCompare) l -> sort localeCompare l = l.
Proof.
  induction 1 as [|x r Hr IH Hx]; simpl; trivial.
  rewrite IH. destruct Hx as [|y r' Hxy]; simpl; trivial.
  unfold titleOrder in Hxy. apply Z.leb_le in Hxy. now rewrite Hxy.
Qed.

(** X16. A listing repeated on the state the first one leaves gives the
    same answer and changes nothing more: the store is rearranged once at
    most. *)
Theorem listing_twice (s : state) (q : Query.t) :
  filteredList localeCompare (fst (filteredList localeCompare s q)) q =
    (fst (filteredList localeCompare s q),
     snd (filteredList localeCompare s q)).
Proof.
  destruct (filterBooks s q) as [[|l]|e] eqn:E.
  - assert (H : filteredList localeCompare s q =
                (mkState (sort localeCompare (books s)) (currentId s),
                 Ok (map View.project (sort localeCompare (books s)))))
      by (unfold filteredList; now rewrite E).
    rewrite H. simpl. unfold filteredList.
    rewrite (filterBooks_store_array s _ q E). simpl.
    now rewrite (sort_sorted_id _ (sort_sorted _ localeCompare_total _)).
  - assert (H : filteredList localeCompare s q =
                (s, Ok (map View.project (sort localeCompare l))))
      by (unfold filteredList; now rewrite E).
    rewrite H. simpl. exact H.
  - assert (H : filteredList localeCompare s q = (s, Err e))
      by (unfold filteredList; now rewrite E).
    rewrite H. simpl. exact H.
Qed.

End Twice.

Lemma listing_twice_witness :
  let s := fst (run codeUnitCompare initial
             [Create "Beta" "B. Author" (JS.ofZ 2001) (JS.ofZ 30) ["NOVEL"];
              Create "alpha" "A. Author" (JS.ofZ 2002) (JS.ofZ 20)
                     ["MANGA"]]) in
  filteredList codeUnitCompare
    (fst (filteredList codeUnitCompare s Query.empty)) Query.empty =
  (fst (filteredList codeUnitCompare s Query.empty),
   snd (filteredList codeUnitCompare s Query.empty)).
Proof.
  intros s. apply (listing_twice codeUnitCompare codeUnitCompare_total).
Defined.

(** ** Updating to a whole price *)

Lemma digit_char (c : ascii) :
  JS.between 48 57 c = true ->
  c = "0"%char \/ c = "1"%char \/ c = "2"%char \/ c = "3"%char \/
  c = "4"%char \/ c = "5"%char \/ c = "6"%char \/ c = "7"%char \/
  c = "8"%char \/ c = "9"%char.
Proof.
  destruct c as [[] [] [] [] [] [] [] []]; intros H; vm_compute in H;
    try discriminate H; auto 12.
Qed.

Ltac digit_cases c H :=
  destruct (digit_char c H)
    as [->|[->|[->|[->|[->|[->|[->|[->|[->| ->]]]]]]]]].

Lemma digits_all (l : list ascii) :
  Forall (fun c => JS.between 48 57 c = true) l ->
  snd (JS.digits 10 l) = [] /\
  List.length (fst (JS.digits 10 l)) = List.length l.
Proof.
  induction 1 as [|c r Hc Hr (IH1 & IH2)]; simpl; auto.
  assert (Hd : exists v, JS.digit 10 c = Some v)
    by (digit_cases c Hc; eexists; reflexivity).
  destruct Hd as (v & ->). destruct (JS.digits 10 r). simpl in *.
  now rewrite IH1, IH2.
Qed.

Lemma trimStart_digit (c : ascii) (r : list ascii) :
  JS.between 48 57 c = true -> JS.trimStart (c :: r) = c :: r.
Proof. intros H. digit_cases c H; reflexivity. Qed.

Lemma trim_digits (l : list ascii) :
  Forall (fun c => JS.between 48 57 c = true) l -> JS.trim l = l.
Proof.
  intros H. unfold JS.trim.
  assert (Ht : forall l0, Forall (fun c => JS.between 48 57 c = true) l0 ->
                          JS.trimStart l0 = l0).
  { intros [|c r] H0; trivial. inversion H0; subst.
    now apply trimStart_digit. }
  rewrite (Ht l H), (Ht (rev l)), rev_involutive; trivial.
  now apply Forall_rev.
Qed.

Lemma parseInt_whole (x : string) :
  wholeNumber x ->
  JS.parseInt (Some x) = JS.nearest (inject_Z (wholeValue x)).
Proof.
  intros (Hne & Hall). unfold JS.parseInt, JS.parseIntChars, wholeValue.
  destruct (list_ascii_of_string x) as [|c r] eqn:El.
  - elim Hne. rewrite <- (string_of_list_ascii_of_string x), El. reflexivity.
  - inversion Hall as [|? ? Hc Hr]; subst.
    rewrite (trimStart_digit c r Hc).
    assert (Hs : JS.signOf (c :: r) = (1, c :: r))
      by (digit_cases c Hc; reflexivity).
    rewrite Hs.
    assert (Hp : match c :: r with
                 | "0"%char :: "x"%char :: r0 | "0"%char :: "X"%char :: r0 =>
                     (16, r0)
                 | _ => (10, c :: r)
                 end = (10, c :: r)).
    { digit_cases c Hc; trivial.
      destruct r as [|c2 r2]; trivial. inversion Hr as [|? ? Hc2 _]; subst.
      digit_cases c2 Hc2; reflexivity. }
    rewrite Hp.
    pose proof (digits_all (c :: r) Hall) as (_ & Hlen).
    destruct (fst (JS.digits 10 (c :: r))) as [|d ds]; [discriminate|].
    now rewrite Z.mul_1_l.
Qed.

Lemma toNumber_whole (x : string) :
  wholeNumber x ->
  JS.toNumber (Some x) = JS.nearest (inject_Z (wholeValue x)).
Proof.
  intros (Hne & Hall). unfold JS.toNumber, JS.stringToNumber, wholeValue.
  rewrite (trim_digits _ Hall).
  destruct (list_ascii_of_string x) as [|c r] eqn:El.
  - elim Hne. rewrite <- (string_of_list_ascii_of_string x), El. reflexivity.
  - inversion Hall as [|? ? Hc Hr]; subst.
    pose proof (digits_all (c :: r) Hall) as (Hsnd & Hlen).
    assert (Hu : JS.unsignedDecimal 1 (c :: r) =
                 JS.nearest
                   (inject_Z (JS.valueOf 10 (fst (JS.digits 10 (c :: r)))))).
    { unfold JS.unsignedDecimal.
      destruct (JS.digits 10 (c :: r)) as [ip r1]. simpl in Hsnd, Hlen.
      subst r1. simpl fst. rewrite app_nil_r.
      destruct ip as [|d ds]; [discriminate|].
      unfold JS.scale10.
      change (- Z.of_nat (List.length (@nil Z))) with 0.
      change (0 <=? 0) with true. cbv iota.
      now rewrite Z.pow_0_r, Z.mul_1_r, Z.mul_1_l. }
    assert (Hi : forall r0,
               String.eqb (string_of_list_ascii (c :: r0)) "Infinity"
               = false)
      by (intros r0; digit_cases c Hc; reflexivity).
    digit_cases c Hc;
      try (unfold JS.signOf; rewrite Hi; exact Hu).
    destruct r as [|c2 r2].
    + reflexivity.
    + inversion Hr as [|? ? Hc2 _]; subst.
      digit_cases c2 Hc2; unfold JS.signOf; rewrite Hi; exact Hu.
Qed.

Lemma le_ofZ (a b : Z) : JS.le (JS.ofZ a) (JS.ofZ b) = true <-> a <= b.
Proof.
  rewrite le_iff. unfold JS.ofZ, Num.Le. now rewrite <- Zle_Qle.
Qed.

Lemma digit_nonneg (r : Z) (c : ascii) (v : Z) :
  JS.digit r c = Some v -> 0 <= v.
Proof.
  unfold JS.digit, JS.between.
  destruct ((48 <=? JS.code c) && (JS.code c <=? 57)) eqn:E1.
  - apply andb_true_iff in E1 as (E1 & _). apply Z.leb_le in E1.
    destruct (_ <? r); intros [= <-]. lia.
  - destruct ((97 <=? JS.code c) && (JS.code c <=? 122)) eqn:E2.
    + apply andb_true_iff in E2 as (E2 & _). apply Z.leb_le in E2.
      destruct (_ <? r); intros [= <-]. lia.
    + destruct ((65 <=? JS.code c) && (JS.code c <=? 90)) eqn:E3.
      * apply andb_true_iff in E3 as (E3 & _). apply Z.leb_le in E3.
        destruct (_ <? r); intros [= <-]. lia.
      * destruct (_ <? r); intros [= <-]. lia.
Qed.

Lemma digits_nonneg (r : Z) (l : list ascii) :
  Forall (fun d => 0 <= d) (fst (JS.digits r l)).
Proof.
  induction l as [|c t IH]; simpl; [constructor|].
  destruct (JS.digit r c) as [v|] eqn:E; [|constructor].
  destruct (JS.digits r t). simpl in *. constructor; trivial.
  now apply (digit_nonneg r c).
Qed.

Lemma valueOf_nonneg (ds : list Z) :
  Forall (fun d => 0 <= d) ds -> 0 <= JS.valueOf 10 ds.
Proof.
  intros H. unfold JS.valueOf.
  assert (G : forall acc, 0 <= acc ->
                0 <= fold_left (fun acc d => acc * 10 + d) ds acc).
  { induction H as [|d r Hd Hr IH]; intros acc Hacc; simpl; trivial.
    apply IH. lia. }
  apply G. lia.
Qed.

Lemma wholeValue_nonneg (x : string) : 0 <= wholeValue x.
Proof. apply valueOf_nonneg, digits_nonneg. Qed.

(** An integer up to [2^53] is a double. *)
Lemma nearest_small (v : Z) :
  Z.abs v <= 2 ^ 53 -> JS.nearest (inject_Z v) = JS.ofZ v.
Proof.
  intros H. unfold JS.nearest. cbn [Qnum Qden inject_Z].
  destruct (Z.eqb_spec v 0) as [->|Hv]; [reflexivity|].
  apply Z.leb_le in H. rewrite H. reflexivity.
Qed.

(** X17. For a price written as a whole number (decimal digits only) that
    is at most [2^53], the update does what its message says: on a record
    that exists, the price 0 is refused with InvalidPrice, and a positive
    one is stored as it is written, so the record keeps a positive
    price. *)
Theorem updatePrice_whole_price (s : state) (id : option string)
    (x : string) (b : Book.t) :
  wholeNumber x -> wholeValue x <= 2 ^ 53 -> getBook s id = Ok b ->
  (wholeValue x <= 0 ->
     updatePrice s id (Some x) = (s, Err InvalidPrice)) /\
  (0 < wholeValue x ->
     exists s',
       updatePrice s id (Some x) = (s', Ok (Book.price b)) /\
       getBook s' id = Ok (Book.withPrice (JS.ofZ (wholeValue x)) b) /\
       Num.Positive (JS.ofZ (wholeValue x))).
Proof.
  intros Hw Hmax Hg. unfold getBook in Hg.
  destruct (find (hasId id) (books s)) as [b0|] eqn:Ef; [|discriminate].
  injection Hg as ->.
  assert (Habs : Z.abs (wholeValue x) <= 2 ^ 53).
  { pose proof (wholeValue_nonneg x). lia. }
  assert (Hu : updatePrice s id (Some x) =
               if JS.le (JS.ofZ (wholeValue x)) (JS.ofZ 0)
               then (s, Err InvalidPrice)
               else (mkState (assignPrice (hasId id)
                                (JS.ofZ (wholeValue x)) (books s))
                             (currentId s), Ok (Book.price b))).
  { unfold updatePrice.
    now rewrite Ef, toNumber_whole, parseInt_whole, nearest_small. }
  rewrite Hu. split.
  - intros H. apply le_ofZ in H. now rewrite H.
  - intros H. destruct (JS.le _ _) eqn:E; [apply le_ofZ in E; lia|].
    eexists. split; [reflexivity|].
    destruct (find_split _ _ _ Ef) as (l1 & l2 & Hs & Hb & Hl).
    unfold getBook. simpl. rewrite Hs.
    rewrite assignPrice_first, find_first; trivial. split; trivial.
    unfold Num.Positive, JS.ofZ, Num.Lt. now rewrite <- Zlt_Qlt.
Qed.

Lemma updatePrice_whole_price_witness :
  let dune := Book.mk 1 "Dune" "Frank Herbert" (JS.ofZ 1965) (JS.ofZ 30)
                      ["SCI_FI"] in
  exists s',
    updatePrice (mkState [dune] 2) (Some "1") (Some "050")
      = (s', Ok (Book.price dune)) /\
    getBook s' (Some "1")
      = Ok (Book.withPrice (JS.ofZ (wholeValue "050")) dune) /\
    Num.Positive (JS.ofZ (wholeValue "050")).
Proof.
  intros dune.
  apply (updatePrice_whole_price (mkState [dune] 2) (Some "1") "050" dune).
  - split; [discriminate|]. repeat constructor.
  - discriminate.
  - reflexivity.
  - reflexivity.
Defined.

(** ** The levels over time *)

Lemma setLevel_valid (r : loggers) (name lvl : option string) :
  levelsValid r -> levelsValid (fst (setLevel r name lvl)).
Proof.
  intros (H1 & H2). unfold setLevel.
  destruct (selectLogger name) as [l|]; [|now split].
  destruct lvl as [v|]; [|now split].
  destruct (JS.includes validLevels (JS.toLowerCase v)) eqn:E; [|now split].
  apply includes_iff in E. destruct l; now split.
Qed.

Lemma serveLevels_valid (qs : list levelRequest) (r : loggers) :
  levelsValid r -> levelsValid (serveLevels r qs).
Proof.
  revert r. induction qs as [|q rest IH]; intros r Hr; trivial.
  simpl. apply IH. destruct q as [n|n l]; simpl.
  - unfold getLevel. now destruct (selectLogger n).
  - now apply setLevel_valid.
Qed.

(** X18. Whatever requests the registry serves from its initial state,
    both loggers stay at one of the five levels, so that a successful
    [getLevel] answers ERROR, WARN, INFO, HTTP or DEBUG. *)
Theorem levels_stay_valid (qs : list levelRequest) :
  levelsValid (serveLevels initialLoggers qs) /\
  (forall name v,
     snd (getLevel (serveLevels initialLoggers qs) name) = Ok v ->
     In v ["ERROR"; "WARN"; "INFO"; "HTTP"; "DEBUG"]).
Proof.
  assert (H : levelsValid (serveLevels initialLoggers qs)).
  { apply serveLevels_valid. split; simpl; auto. }
  split; trivial. intros name v. unfold getLevel.
  destruct (selectLogger name) as [l|]; [|discriminate].
  simpl. intros [= <-].
  assert (Hl : In (level (serveLevels initialLoggers qs) l) validLevels)
    by (destruct l; apply H).
  revert Hl. generalize (level (serveLevels initialLoggers qs) l).
  intros w Hw. simpl in Hw.
  repeat (destruct Hw as [<-|Hw]; [simpl; auto 6|]). contradiction.
Qed.

(** X19. A [setLevel] that fails changes no level, and it fails in three
    ways: UnknownChannel when the name is not a channel; otherwise the
    internal error of the handler when the level parameter is absent;
    otherwise InvalidSeverity. *)
Theorem setLevel_failure (r : loggers) (name lvl : option string)
    (e : error) :
  snd (setLevel r name lvl) = Err e ->
  fst (setLevel r name lvl) = r /\
  (e = UnknownChannel /\ ~ isChannel name \/
   e = InternalError /\ isChannel name /\ lvl = None \/
   e = InvalidSeverity /\ isChannel name /\
     exists v, lvl = Some v /\ ~ isSeverity v).
Proof.
  unfold setLevel.
  destruct (selectLogger name) as [l|] eqn:El.
  - assert (Hc : isChannel name) by (apply selectLogger_channel; eauto).
    destruct lvl as [v|]; cbn [snd fst].
    + destruct (JS.includes validLevels (JS.toLowerCase v)) eqn:E;
        cbn [negb snd fst]; [discriminate|].
      intros [= <-]. split; trivial. right. right.
      repeat split; trivial. exists v. split; trivial.
      intros H. apply isSeverity_iff in H. congruence.
    + intros [= <-]. auto 6.
  - simpl. intros [= <-]. split; trivial. left. split; trivial.
    intros H. apply selectLogger_channel in H as (l & H). congruence.
Qed.

Lemma setLevel_failure_witness :
  fst (setLevel initialLoggers (Some "books-logger") None) = initialLoggers /\
  (InternalError = UnknownChannel /\ ~ isChannel (Some "books-logger") \/
   InternalError = InternalError /\ isChannel (Some "books-logger") /\
     @None string = None \/
   InternalError = InvalidSeverity /\ isChannel (Some "books-logger") /\
     exists v, None = Some v /\ ~ isSeverity v).
Proof.
  apply (setLevel_failure initialLoggers (Some "books-logger") None
           InternalError).
  reflexivity.
Defined.

(** ** The log calls *)

Lemma nth_error_first {A : Type} (p : A -> bool) (l : list A) :
  findIndex p l <> -1 ->
  exists b, nth_error l (Z.to_nat (findIndex p l)) = Some b /\
            find p l = Some b.
Proof.
  intros H. destruct (find p l) as [b|] eqn:Ef;
    [|now apply findIndex_none in Ef].
  destruct (find_split _ _ _ Ef) as (l1 & l2 & -> & Hb & Hl).
  rewrite findIndex_first, Nat2Z.id by trivial.
  exists b. split; trivial.
  rewrite nth_error_app2, Nat.sub_diag by lia. reflexivity.
Qed.

Section LogFacts.

Variable localeCompare : string -> string -> Z.

(** The handlers with their log calls do to the store, and answer, what
    the handlers do. *)
Lemma handle_agrees (rc : Z) (s : state) (o : op) :
  fst (handle localeCompare rc s o) = step localeCompare s o.
Proof.
  destruct o as [t a y p g|i|i p|i|q|q]; simpl.
  - unfold postBook, create. destruct (find _ _); trivial.
    destruct (_ || _); trivial. now destruct (JS.le _ _).
  - unfold getBookById, getBook. now destruct (find _ _).
  - unfold putBook, updatePrice. destruct (find _ _); trivial.
    now destruct (JS.le _ _).
  - unfold deleteBookById, deleteBook.
    destruct (findIndex (hasId i) (books s) =? -1) eqn:E; trivial.
    apply Z.eqb_neq in E.
    destruct (nth_error_first _ _ E) as (b & -> & _). reflexivity.
  - unfold getBooksTotal, filteredCount. now destruct (filterBooks s q).
  - unfold getBooks, filteredList. now destruct (filterBooks s q).
Qed.

Lemma handle_logs (rc : Z) (s : state) (o : op) :
  let r := snd (fst (handle localeCompare rc s o)) in
  let l := snd (handle localeCompare rc s o) in
  (responseError r = Some InvalidGenre -> l = []) /\
  (forall e, responseError r = Some e -> e <> InvalidGenre ->
     exists m, l = [mkCall TheBooksLogger LogError m rc]) /\
  (responseError r = None ->
     l <> [] /\
     Forall (fun c => target c = TheBooksLogger /\ severity c <> LogError /\
                      requestId c = rc) l).
Proof.
  destruct o as [t a y p g|i|i p|i|q|q]; simpl.
  - unfold postBook. destruct (find _ _); simpl.
    { repeat split; try discriminate. intros; eexists; reflexivity. }
    destruct (_ || _); simpl.
    { repeat split; try discriminate. intros; eexists; reflexivity. }
    destruct (JS.le _ _); simpl.
    { repeat split; try discriminate. intros; eexists; reflexivity. }
    repeat split; try discriminate. repeat constructor; discriminate.
  - unfold getBookById. destruct (find _ _); simpl.
    + repeat split; try discriminate. repeat constructor; discriminate.
    + repeat split; try discriminate. intros; eexists; reflexivity.
  - unfold putBook. destruct (find _ _); simpl.
    + destruct (JS.le _ _); simpl.
      * repeat split; try discriminate. intros; eexists; reflexivity.
      * repeat split; try discriminate. repeat constructor; discriminate.
    + repeat split; try discriminate. intros; eexists; reflexivity.
  - unfold deleteBookById.
    destruct (findIndex (hasId i) (books s) =? -1) eqn:E; simpl.
    + repeat split; try discriminate. intros; eexists; reflexivity.
    + apply Z.eqb_neq in E.
      destruct (nth_error_first _ _ E) as (b & -> & _). simpl.
      repeat split; try discriminate. repeat constructor; discriminate.
  - unfold getBooksTotal, filterBooks.
    destruct (filterGenres s (Query.genres q) StoreArray) as [a|e] eqn:Eg;
      simpl.
    + repeat split; try discriminate. repeat constructor; discriminate.
    + assert (e = InvalidGenre) as ->.
      { unfold filterGenres in Eg. destruct (Query.genres q); [|discriminate].
        destruct (JS.truthy _); [|discriminate].
        destruct (negb _); congruence. }
      repeat split; try discriminate. intros e [= <-] H. now elim H.
  - unfold getBooks, filterBooks.
    destruct (filterGenres s (Query.genres q) StoreArray) as [a|e] eqn:Eg;
      simpl.
    + repeat split; try discriminate. repeat constructor; discriminate.
    + assert (e = InvalidGenre) as ->.
      { unfold filterGenres in Eg. destruct (Query.genres q); [|discriminate].
        destruct (JS.truthy _); [|discriminate].
        destruct (negb _); congruence. }
      repeat split; try discriminate. intros e [= <-] H. now elim H.
Qed.

(** X20. What a request to the store logs, beside the lines of the
    middleware: nothing when it fails on an invalid genre; exactly one
    call, an error on the books logger, when it fails otherwise; and when
    it succeeds one call at least, all on the books logger, none of them
    an error. Every call carries the request counter. *)
Theorem store_request_logs (rc : Z) (s : state) (o : op) :
  let r := snd (fst (handle localeCompare rc s o)) in
  let l := snd (handle localeCompare rc s o) in
  (responseError r = Some InvalidGenre -> l = []) /\
  (forall e, responseError r = Some e -> e <> InvalidGenre ->
     exists m, l = [mkCall TheBooksLogger LogError m rc]) /\
  (responseError r = None ->
     l <> [] /\
     Forall (fun c => target c = TheBooksLogger /\ severity c <> LogError /\
                      requestId c = rc) l).
Proof. apply handle_logs. Qed.

Lemma handle_calls (rc : Z) (s : state) (o : op) :
  Forall (fun c => target c = TheBooksLogger /\ requestId c = rc)
         (snd (handle localeCompare rc s o)).
Proof.
  destruct (handle_logs rc s o) as (H1 & H2 & H3).
  destruct (responseError (snd (fst (handle localeCompare rc s o))))
    as [e|] eqn:E.
  - assert (Hd : e = InvalidGenre \/ e <> InvalidGenre)
      by (destruct e; auto; right; discriminate).
    destruct Hd as [->|Hd].
    + rewrite H1; trivial.
    + destruct (H2 e eq_refl Hd) as (m & ->). repeat constructor.
  - destruct (H3 eq_refl) as (_ & H). eapply Forall_impl; [|exact H].
    simpl. tauto.
Qed.

End LogFacts.

Section ServeFacts.

Variable localeCompare : string -> string -> Z.

Lemma route_counter (rc : Z) (srv : server) (q : request) :
  requestCounter (fst (fst (route localeCompare rc srv q))) = rc.
Proof.
  destruct q as [|o|lq]; simpl; trivial.
  - now destruct (handle localeCompare rc (store srv) o) as [[s' r] l].
  - now destruct (serveLevel (levels srv) lq).
Qed.

Lemma route_calls (rc : Z) (srv : server) (q : request) :
  Forall (fun c => target c = TheBooksLogger /\ requestId c = rc)
         (snd (route localeCompare rc srv q)).
Proof.
  destruct q as [|o|lq]; simpl; [constructor| |].
  - pose proof (handle_calls localeCompare rc (store srv) o) as H.
    now destruct (handle localeCompare rc (store srv) o) as [[s' r] l].
  - destruct (serveLevel (levels srv) lq). constructor.
Qed.

Lemma serve_unfold (srv : server) (q : request) :
  serve localeCompare srv q =
    let rc := JS.succ (requestCounter srv) in
    let x := route localeCompare rc srv q in
    (fst x,
     (incoming rc q
        :: snd x ++ afterHandler rc q (snd (fst x)) ++ [finished rc])%list).
Proof.
  unfold serve.
  now destruct (route localeCompare _ srv q) as [[srv' a] l].
Qed.

Lemma afterHandler_calls (rc : Z) (q : request) (a : reply) :
  Forall (fun c => severity c = LogError /\ requestId c = rc)
         (afterHandler rc q a).
Proof.
  unfold afterHandler. destruct (replyError a) as [[]|];
    repeat constructor.
Qed.

Lemma serve_counter (srv : server) (q : request) :
  requestCounter (fst (fst (serve localeCompare srv q)))
    = JS.succ (requestCounter srv).
Proof. rewrite serve_unfold. simpl. apply route_counter. Qed.

(** X21. Every request takes the next number of the request counter, and
    every log call made for it carries that number: the first line of the
    middleware, which comes first, the calls of the handler, the call of
    the error-handling middleware and the line of the middleware on
    [finish]. *)
Theorem serve_correlates (srv : server) (q : request) :
  let srv' := fst (fst (serve localeCompare srv q)) in
  let l := snd (serve localeCompare srv q) in
  requestCounter srv' = JS.succ (requestCounter srv) /\
  hd_error l = Some (incoming (requestCounter srv') q) /\
  Forall (fun c => requestId c = requestCounter srv') l.
Proof.
  rewrite serve_unfold. simpl. rewrite route_counter.
  split; trivial. split; trivial.
  constructor; trivial. apply Forall_app. split.
  - eapply Forall_impl; [|apply route_calls]. simpl. tauto.
  - apply Forall_app. split; [|now repeat constructor].
    eapply Forall_impl; [|apply afterHandler_calls]. simpl. tauto.
Qed.

(** Of the calls of one request the first line of the middleware is the
    only info on the request logger. *)
Lemma serve_incoming (srv : server) (q : request) :
  filter isIncoming (snd (serve localeCompare srv q)) =
    [incoming (JS.succ (requestCounter srv)) q].
Proof.
  rewrite serve_unfold. simpl. f_equal.
  rewrite !filter_app.
  rewrite (filter_none isIncoming (snd (route _ _ _ _))),
          (filter_none isIncoming (afterHandler _ _ _)); trivial.
  - intros c Hc.
    pose proof (afterHandler_calls (JS.succ (requestCounter srv)) q
                  (snd (fst (route localeCompare
                               (JS.succ (requestCounter srv)) srv q)))) as H.
    rewrite Forall_forall in H. destruct (H c Hc) as (Hs & _).
    unfold isIncoming. rewrite Hs. now destruct (target c).
  - intros c Hc.
    pose proof (route_calls (JS.succ (requestCounter srv)) srv q) as H.
    rewrite Forall_forall in H. destruct (H c Hc) as (Ht & _).
    unfold isIncoming. now rewrite Ht.
Qed.

Lemma serveAll_numbers (qs : list request) (srv : server) (k : nat) :
  requestCounter srv = Z.of_nat k ->
  Z.of_nat k + Z.of_nat (List.length qs) <= 2 ^ 53 ->
  requestCounter (fst (serveAll localeCompare srv qs))
    = Z.of_nat (k + List.length qs) /\
  map requestId (filter isIncoming (snd (serveAll localeCompare srv qs)))
    = map Z.of_nat (seq (S k) (List.length qs)).
Proof.
  revert srv k. induction qs as [|q rest IH]; intros srv k Hk Hlen.
  - simpl. rewrite Nat.add_0_r. auto.
  - pose proof (serve_counter srv q) as H1.
    pose proof (serve_incoming srv q) as Hi.
    cbn [serveAll].
    destruct (serve localeCompare srv q) as [[srv1 a] l].
    cbn [fst snd] in H1, Hi.
    assert (Hl : List.length (q :: rest) = S (List.length rest))
      by reflexivity.
    rewrite Hl in *.
    assert (Hs : requestCounter srv1 = Z.of_nat (S k)).
    { rewrite H1, Hk. unfold JS.succ.
      destruct (Z.ltb_spec (Z.of_nat k) (2 ^ 53)); lia. }
    specialize (IH srv1 (S k) Hs).
    destruct (serveAll localeCompare srv1 rest) as [srv2 ls].
    cbn [fst snd] in *.
    destruct IH as (IH1 & IH2); [lia|].
    split; [rewrite IH1; f_equal; lia|].
    rewrite filter_app, map_app, Hi, IH2.
    cbn [map requestId incoming seq app]. now rewrite Hk, <- Hs, H1, Hk.
Qed.

(** X22. The request counter counts the requests: after [n] requests to a
    server just started, [n] at most [2^53], it holds [n], and the first
    lines the middleware logged carry the numbers 1, 2, ..., [n] in the
    order the requests came. *)
Theorem request_numbers (qs : list request) :
  Z.of_nat (List.length qs) <= 2 ^ 53 ->
  requestCounter (fst (serveAll localeCompare started qs))
    = Z.of_nat (List.length qs) /\
  map requestId
      (filter isIncoming (snd (serveAll localeCompare started qs)))
    = firstNumbers (List.length qs).
Proof.
  intros H. apply (serveAll_numbers qs started 0); trivial.
Qed.

(** X23. A request to the level registry leaves the store as it is and
    logs the two lines of the middleware only, the first one and the one
    on [finish], unless the handler throws, which it does exactly on a
    channel name with no level parameter: then the error-handling
    middleware logs one error in between, on the request logger. *)
Theorem level_request_logs (srv : server) (lq : levelRequest) :
  let srv' := fst (fst (serve localeCompare srv (Levels lq))) in
  let a := snd (fst (serve localeCompare srv (Levels lq))) in
  let l := snd (serve localeCompare srv (Levels lq)) in
  let first := incoming (requestCounter srv') (Levels lq) in
  let last :=
    mkCall TheRequestLogger LogDebug
           [Text "request duration: "; Elapsed; Text "ms"]
           (requestCounter srv') in
  store srv' = store srv /\
  (replyError a = Some InternalError <->
     exists name, lq = SetLevel name None /\ isChannel name) /\
  (replyError a = Some InternalError ->
     levels srv' = levels srv /\
     l = [first;
          mkCall TheRequestLogger LogError [Text "Error: "; Thrown]
                 (requestCounter srv');
          last]) /\
  (replyError a <> Some InternalError -> l = [first; last]).
Proof.
  rewrite serve_unfold. simpl.
  destruct (serveLevel (levels srv) lq) as [r' a] eqn:E. simpl.
  split; trivial.
  assert (Hi : a = Err InternalError <->
               exists name, lq = SetLevel name None /\ isChannel name).
  { destruct lq as [n|n v]; simpl in E.
    - unfold getLevel in E. split.
      + destruct (selectLogger n); inversion E; subst; discriminate.
      + intros (name & Hq & _). discriminate Hq.
    - unfold setLevel in E. split.
      + destruct (selectLogger n) as [lg|] eqn:El;
          [|inversion E; subst; discriminate].
        destruct v as [v|].
        * destruct (negb _); inversion E; subst; discriminate.
        * intros _. exists n. split; trivial.
          apply selectLogger_channel. eauto.
      + intros (name & Hq & Hc). injection Hq as <- ->.
        apply selectLogger_channel in Hc as (lg & Hl).
        rewrite Hl in E. now inversion E. }
  assert (Hr : a = Err InternalError -> r' = levels srv).
  { intros ->. destruct lq as [n|n v]; simpl in E.
    - unfold getLevel in E. destruct (selectLogger n); now inversion E.
    - unfold setLevel in E. destruct (selectLogger n); [|now inversion E].
      destruct v; [|now inversion E].
      destruct (negb _); [now inversion E | discriminate]. }
  unfold afterHandler. simpl.
  split; [|split].
  - rewrite <- Hi. destruct a as [v|e]; simpl; split; congruence.
  - destruct a as [v|[]]; simpl; try discriminate.
    intros _. now rewrite Hr.
  - destruct a as [v|[]]; simpl; trivial. congruence.
Qed.

End ServeFacts.

Lemma request_numbers_witness :
  let qs := [Health;
             Books (Create "Dune" "Frank Herbert" (JS.ofZ 1965) (JS.ofZ 30)
                           ["SCI_FI"]);
             Levels (SetLevel (Some "books-logger") None)] in
  requestCounter (fst (serveAll codeUnitCompare started qs)) = 3 /\
  map requestId
      (filter isIncoming (snd (serveAll codeUnitCompare started qs)))
    = firstNumbers 3.
Proof.
  intros qs. apply (request_numbers codeUnitCompare qs). simpl. lia.
Defined.

(** ** Creations and deletions over time *)

Lemma assignPrice_length (p : Book.t -> bool) (v : JS.number)
    (l : list Book.t) :
  List.length (assignPrice p v l) = List.length l.
Proof.
  rewrite <- (length_map Book.id (assignPrice p v l)),
          <- (length_map Book.id l).
  now rewrite assignPrice_map.
Qed.

Section Counting.

Variable localeCompare : string -> string -> Z.

(** One request changes the number of records by what its answer says. *)
Lemma step_length (s : state) (o : op) :
  let s' := fst (step localeCompare s o) in
  let r := snd (step localeCompare s o) in
  Z.of_nat (List.length (books s')) =
    Z.of_nat (List.length (books s))
    + (if isCreated r then 1 else 0) - (if isDeleted r then 1 else 0).
Proof.
  destruct o as [t a y p g|i|i p|i|q|q]; simpl.
  - unfold create. destruct (find _ _); simpl; [lia|].
    destruct (_ || _); simpl; [lia|]. destruct (JS.le _ _); simpl; [lia|].
    rewrite length_app. simpl. lia.
  - lia.
  - unfold updatePrice. destruct (find _ _); simpl; [|lia].
    destruct (JS.le _ _); simpl; [lia|]. rewrite assignPrice_length. lia.
  - destruct (deleteBook s i) as [s' [n|e]] eqn:E; simpl.
    + apply deleteBook_ok_split in E as (l1 & b & l2 & -> & _ & _ & -> & _).
      rewrite !length_app. simpl. lia.
    + unfold deleteBook in E. destruct (_ =? _); [|discriminate].
      injection E as <- _. lia.
  - unfold filteredCount. destruct (filterBooks s q); simpl; lia.
  - pose proof (proj1 (filteredList_permutes_store localeCompare s q)) as H.
    apply Permutation_length in H.
    destruct (filteredList localeCompare s q) as [s' [l|e]]; simpl in *; lia.
Qed.

Lemma run_length (ops : list op) (s : state) :
  let s' := fst (run localeCompare s ops) in
  let rs := snd (run localeCompare s ops) in
  Z.of_nat (List.length (books s')) =
    Z.of_nat (List.length (books s))
    + Z.of_nat (List.length (filter isCreated rs))
    - Z.of_nat (List.length (filter isDeleted rs)).
Proof.
  revert s. induction ops as [|o rest IH]; intros s; simpl; [lia|].
  pose proof (step_length s o) as H.
  destruct (step localeCompare s o) as [s1 r]. specialize (IH s1).
  destruct (run localeCompare s1 rest) as [s2 rs]. simpl in *.
  destruct (isCreated r), (isDeleted r); simpl; lia.
Qed.

(** X24. The store holds as many records as creations succeeded less
    deletions succeeded, whatever requests were served from the empty
    store; it is the number the count entry point answers for a query
    with no criterion. *)
Theorem store_size (ops : list op) :
  let s := fst (run localeCompare initial ops) in
  let rs := snd (run localeCompare initial ops) in
  snd (filteredCount s Query.empty) =
    Ok (Z.of_nat (List.length (filter isCreated rs))
        - Z.of_nat (List.length (filter isDeleted rs))).
Proof.
  simpl. pose proof (run_length ops initial) as H. simpl in H.
  unfold filteredCount. simpl. f_equal. lia.
Qed.

Lemma step_created (s : state) (o : op) :
  createdIds [snd (step localeCompare s o)] =
    if isCreated (snd (step localeCompare s o)) then [currentId s] else [].
Proof.
  destruct o as [t a y p g|i|i p|i|q|q]; simpl;
    try (destruct (updatePrice s i p) as [? []]);
    try (destruct (deleteBook s i) as [? []]);
    try (destruct (filteredCount s q) as [? []]);
    try (destruct (filteredList localeCompare s q) as [? []]); trivial.
  destruct (create s t a y p g) as [s' [n|e]] eqn:E; trivial.
  simpl. now apply create_ok in E as (-> & _).
Qed.

Lemma run_created (ops : list op) (s : state) (k : nat) :
  currentId s = Z.of_nat k ->
  Z.of_nat k + Z.of_nat (List.length ops) <= 2 ^ 53 ->
  let rs := snd (run localeCompare s ops) in
  createdIds rs = map Z.of_nat (seq k (List.length (createdIds rs))) /\
  currentId (fst (run localeCompare s ops))
    = Z.of_nat (k + List.length (createdIds rs)) /\
  (List.length (createdIds rs) <= List.length ops)%nat.
Proof.
  revert s k. induction ops as [|o rest IH]; intros s k Hk Hlen.
  - simpl. rewrite Nat.add_0_r. auto.
  - assert (Hl : List.length (o :: rest) = S (List.length rest))
      by reflexivity.
    rewrite Hl in *. cbn [run].
    pose proof (step_created s o) as Hc.
    pose proof (step_counter localeCompare s o) as Hn.
    assert (Hy : isCreated (snd (step localeCompare s o)) = true ->
                 currentId (fst (step localeCompare s o)) = Z.of_nat (S k)).
    { destruct o as [t a y p g|i|i p|i|q|q]; simpl;
        try (destruct (updatePrice s i p) as [? []]);
        try (destruct (deleteBook s i) as [? []]);
        try (destruct (filteredCount s q) as [? []]);
        try (destruct (filteredList localeCompare s q) as [? []]);
        try discriminate.
      destruct (create s t a y p g) as [s' [n|e]] eqn:E; [|discriminate].
      intros _. simpl. apply create_ok in E as (_ & ->).
      rewrite Hk. unfold JS.succ.
      destruct (Z.ltb_spec (Z.of_nat k) (2 ^ 53)); lia. }
    destruct (step localeCompare s o) as [s1 r]. cbn [fst snd] in *.
    destruct (isCreated r) eqn:Er.
    + specialize (IH s1 (S k) (Hy eq_refl)).
      destruct (run localeCompare s1 rest) as [s2 rs]. cbn [fst snd] in *.
      destruct IH as (IH1 & IH2 & IH3); [lia|].
      assert (Hcr : createdIds (r :: rs) = currentId s :: createdIds rs).
      { destruct r as [[n|e]|?|?|?|?|?]; try discriminate Er.
        simpl in *. congruence. }
      rewrite Hcr. cbn [List.length seq map].
      rewrite <- IH1, Hk, IH2. repeat split; trivial; [f_equal|]; lia.
    + specialize (IH s1 k). rewrite (Hn eq_refl) in IH. specialize (IH Hk).
      destruct (run localeCompare s1 rest) as [s2 rs]. cbn [fst snd] in *.
      destruct IH as (IH1 & IH2 & IH3); [lia|].
      assert (Hcr : createdIds (r :: rs) = createdIds rs).
      { destruct r as [[n|e]|?|?|?|?|?]; try discriminate Er; reflexivity. }
      rewrite Hcr. repeat split; trivial. lia.
Qed.

(** X25. Identifiers are handed out as 1, 2, 3, ... : over a sequence of
    fewer than [2^53] requests from the empty store the successful
    creations return, in order, the numbers from 1 on, whatever else is
    served in between. *)
Theorem ids_in_order (ops : list op) :
  1 + Z.of_nat (List.length ops) <= 2 ^ 53 ->
  let rs := snd (run localeCompare initial ops) in
  createdIds rs = firstNumbers (List.length (createdIds rs)).
Proof.
  intros H. apply (run_created ops initial 1); trivial.
Qed.

(** X26. The title of a record that was deleted is free again: after any
    requests from the empty store, when a delete removes the record a get
    answers, a creation with that title, a year in range and a price above
    0 succeeds. *)
Theorem deleted_title_is_free (ops : list op) (id : option string)
    (b : Book.t) (s' : state) (n : Z) (author : string)
    (year price : JS.number) (genres : list string) :
  let s := fst (run localeCompare initial ops) in
  getBook s id = Ok b ->
  deleteBook s id = (s', Ok n) ->
  yearInRange year -> Num.Positive price ->
  snd (create s' (Book.title b) author year price genres)
    = Ok (currentId s').
Proof.
  intros s Hg Hd Hy Hp.
  assert (Ht : distinctTitles s).
  { apply (run_invariant localeCompare distinctTitles (fun _ => True)).
    - intros s0 o _. apply step_distinctTitles.
    - clear. induction ops; constructor; trivial.
    - constructor. }
  apply deleteBook_ok_split in Hd as (l1 & b' & l2 & Hs & Hb & Hl & Hs' & _).
  assert (b' = b) as ->.
  { unfold getBook in Hg. rewrite Hs in Hg.
    rewrite (find_first _ _ _ _ Hl Hb) in Hg. congruence. }
  unfold distinctTitles in Ht. rewrite Hs, map_app in Ht. simpl in Ht.
  apply NoDup_remove_2 in Ht. rewrite <- map_app, <- Hs' in Ht.
  unfold create.
  destruct (find (sameTitle (Book.title b)) (books s')) as [x|] eqn:Ef.
  { apply find_some in Ef as (Hin & Hx). elim Ht.
    apply in_map_iff. exists x. split; trivial.
    unfold sameTitle in Hx. now apply String.eqb_eq in Hx. }
  assert (Hn : year <> JS.NaN) by (intros ->; destruct Hy as [[] _]).
  rewrite (proj2 (yearInRange_iff year Hn) Hy).
  destruct (JS.le price (JS.ofZ 0)) eqn:E; trivial.
  exfalso. apply le_iff in E. unfold Num.Positive in Hp.
  destruct price; simpl in *; try contradiction.
  exact (Qlt_not_le _ _ Hp E).
Qed.

End Counting.

Lemma ids_in_order_witness :
  let rs := snd (run codeUnitCompare initial
               [Create "Dune" "Frank Herbert" (JS.ofZ 1965) (JS.ofZ 30)
                       ["SCI_FI"];
                Create "dune" "Again" (JS.ofZ 1965) (JS.ofZ 30) [];
                Delete (Some "1");
                Create "Emma" "Jane Austen" (JS.ofZ 1950) (JS.ofZ 12)
                       ["NOVEL"]]) in
  createdIds rs = firstNumbers (List.length (createdIds rs)).
Proof.
  intros rs. apply (ids_in_order codeUnitCompare). simpl. lia.
Defined.

Lemma deleted_title_is_free_witness :
  let ops := [Create "Dune" "Frank Herbert" (JS.ofZ 1965) (JS.ofZ 30)
                     ["SCI_FI"]] in
  let s := fst (run codeUnitCompare initial ops) in
  snd (create (fst (deleteBook s (Some "1"))) "Dune" "F. Herbert"
              (JS.ofZ 1984) (JS.ofZ 12) ["SCI_FI"])
    = Ok (currentId (fst (deleteBook s (Some "1")))).
Proof.
  intros ops s.
  apply (deleted_title_is_free codeUnitCompare ops (Some "1")
           (Book.mk 1 "Dune" "Frank Herbert" (JS.ofZ 1965) (JS.ofZ 30)
                    ["SCI_FI"])
           (fst (deleteBook s (Some "1"))) 0).
  - reflexivity.
  - reflexivity.
  - split; apply le_iff; reflexivity.
  - apply lt_iff. reflexivity.
Defined.

(** ** Filtering by genres: the list of tags *)

Lemma noComma_cons (c : ascii) (t : string) :
  noComma (String c t) <-> c <> ","%char /\ noComma t.
Proof. unfold noComma. simpl. intuition congruence. Qed.

Lemma concat_cons (c : ascii) (w : string) (ws : list string) :
  String.concat "," (String c w :: ws) = String c (String.concat "," (w :: ws)).
Proof. now destruct ws. Qed.

Lemma split_cons (sep c : ascii) (r : string) :
  JS.split sep (String c r) =
  if Ascii.eqb c sep then EmptyString :: JS.split sep r
  else match JS.split sep r with
       | [] => [String c EmptyString]
       | w :: ws => String c w :: ws
       end.
Proof. reflexivity. Qed.

(** Splitting at the commas undoes the joining with commas. *)
Lemma split_commaSeparated (tags : list string) :
  tags <> [] -> Forall noComma tags ->
  JS.split "," (commaSeparated tags) = tags.
Proof.
  unfold commaSeparated. intros Hne H. induction H as [|t r Ht Hr IH];
    [congruence|]. clear Hne.
  induction t as [|c t IHt].
  - destruct r as [|t2 r2]; [reflexivity|].
    change (String.concat "," ("" :: t2 :: r2))
      with (String "," (String.concat "," (t2 :: r2))).
    rewrite split_cons, Ascii.eqb_refl, IH by discriminate. reflexivity.
  - apply noComma_cons in Ht as (Hc & Ht). rewrite concat_cons.
    rewrite split_cons.
    destruct (Ascii.eqb_spec c ","%char) as [->|_]; [congruence|].
    now rewrite (IHt Ht).
Qed.

(** Every string is a list of tags joined with commas: the tags that
    [split] answers. *)
Lemma commaSeparated_split (g : string) :
  JS.split "," g <> [] /\ Forall noComma (JS.split "," g) /\
  g = commaSeparated (JS.split "," g).
Proof.
  unfold commaSeparated. induction g as [|c g (Hne & Hall & Hg)];
    [|rewrite split_cons].
  - repeat split; [discriminate|]. repeat constructor. intros [].
  - destruct (Ascii.eqb_spec c ","%char) as [->|Hc].
    + repeat split; [discriminate | |].
      * constructor; trivial. intros [].
      * destruct (JS.split "," g) as [|w ws]; [congruence|].
        change (String.concat "," ("" :: w :: ws))
          with (String "," (String.concat "," (w :: ws))).
        now rewrite <- Hg.
    + destruct (JS.split "," g) as [|w ws]; [congruence|].
      apply Forall_cons_iff in Hall as (Hw & Hws).
      repeat split; [discriminate | |].
      * constructor; trivial. now apply noComma_cons.
      * rewrite concat_cons. now rewrite <- Hg.
Qed.

Lemma filter_partition {A : Type} (p : A -> bool) (l : list A) :
  Permutation (filter p l ++ filter (fun x => negb (p x)) l) l.
Proof.
  induction l as [|x r IH]; simpl; [constructor|].
  destruct (p x); simpl.
  - now constructor.
  - rewrite <- Permutation_middle. now constructor.
Qed.

(** C6, as stated, fails on the empty genres parameter: it lists one tag,
    the empty one, which is not in the catalog, and yet the query is not
    refused; it answers every record. *)
Lemma genres_empty_is_not_refused :
  let s := fst (create initial "Dune" "Frank Herbert" (JS.ofZ 1965)
                       (JS.ofZ 30) ["SCI_FI"]) in
  let q := Query.mk None None None None None (Some "") in
  "" = commaSeparated [""] /\
  ~ In "" ["SCI_FI"; "NOVEL"; "HISTORY"; "MANGA"; "ROMANCE"; "PROFESSIONAL"]
  /\
  snd (filteredList codeUnitCompare s q) =
    Ok [View.mk 1 "Dune" "Frank Herbert" (JS.ofZ 30) (JS.ofZ 1965)
                ["SCI_FI"]] /\
  snd (filteredList codeUnitCompare s q) <> Err InvalidGenre.
Proof.
  split; [reflexivity|]. split.
  - simpl. intros H.
    repeat (destruct H as [H|H]; [discriminate H|]). contradiction.
  - split; [reflexivity | discriminate].
Qed.

Section Genres.

Variable localeCompare : string -> string -> Z.

(** Of two strings, one does not come after the other. *)
Hypothesis localeCompare_total :
  forall a b, localeCompare a b <= 0 \/ localeCompare b a <= 0.

(** C6, amended. An empty genres parameter is the parameter left out. A
    non-empty one is a list of tags joined with commas. When a tag of the
    list is outside the catalog the listing fails with InvalidGenre.
    Otherwise the store is left as it is and splits into the records
    listed and the others: a record listed has a tag of the list and meets
    the other criteria, no other record does both; the list is in the
    order of the titles, case ignored, and gives of each record the id,
    title, author, price, year and genres. *)
Theorem filteredList_by_genres (s : state) (g : string)
    (a pb pl yb yl : option string) :
  let q := Query.mk a pb pl yb yl (Some g) in
  (g = "" ->
     filteredList localeCompare s q =
     filteredList localeCompare s (Query.mk a pb pl yb yl None)) /\
  (exists tags,
     tags <> [] /\ Forall noComma tags /\ g = commaSeparated tags) /\
  (g <> "" ->
   forall tags,
     tags <> [] -> Forall noComma tags -> g = commaSeparated tags ->
     ((exists t,
         In t tags /\
         ~ In t ["SCI_FI"; "NOVEL"; "HISTORY"; "MANGA"; "ROMANCE";
                 "PROFESSIONAL"]) ->
        filteredList localeCompare s q = (s, Err InvalidGenre)) /\
     ((forall t,
         In t tags ->
         In t ["SCI_FI"; "NOVEL"; "HISTORY"; "MANGA"; "ROMANCE";
               "PROFESSIONAL"]) ->
        exists l rest,
          filteredList localeCompare s q =
            (s, Ok (map (fun b => View.mk (Book.id b) (Book.title b)
                                          (Book.author b) (Book.price b)
                                          (Book.year b) (Book.genres b))
                        l)) /\
          Permutation (l ++ rest) (books s) /\
          (forall b, In b l -> sharesGenre tags b /\ meetsRest q b) /\
          (forall b, In b rest -> ~ (sharesGenre tags b /\ meetsRest q b)) /\
          Sorted (fun x y =>
                    localeCompare (JS.toLowerCase (Book.title x))
                                  (JS.toLowerCase (Book.title y)) <= 0)
                 l)).
Proof.
  intros q. split; [|split].
  - intros ->. reflexivity.
  - exists (JS.split "," g). apply commaSeparated_split.
  - intros Hne tags Ht Hc Hg.
    assert (Hl : genreList g = tags).
    { unfold genreList. rewrite Hg. now apply split_commaSeparated. }
    assert (Hv : genresValid q <-> (forall t, In t tags -> In t validGenres)).
    { unfold genresValid, q. simpl. split.
      - intros H. rewrite <- Hl. now apply H.
      - intros H g' [= <-] _. now rewrite Hl. }
    assert (Hm : forall b, meetsGenres q b <-> sharesGenre tags b).
    { intros b. unfold meetsGenres, q. simpl. split.
      - intros H. rewrite <- Hl. now apply H.
      - intros H g' [= <-] _. now rewrite Hl. }
    assert (Hs : fst (filteredList localeCompare s q) = s).
    { apply filteredList_keeps_store_when_filtering. unfold q. simpl.
      apply truthy_some in Hne. simpl in Hne. now rewrite Hne. }
    destruct (filterBooks_spec s q) as (Hok & Herr).
    split.
    + intros (t & Hin & Hout). unfold filteredList.
      rewrite Herr; trivial. intros H. exact (Hout (proj1 Hv H t Hin)).
    + intros Hall. destruct (Hok (proj2 Hv Hall)) as (arr & E & He).
      unfold filteredList in Hs |- *. rewrite E in Hs |- *.
      cbn [fst] in Hs. rewrite Hs, He.
      exists (sort localeCompare (filter (passesAll q) (books s))),
             (filter (fun b => negb (passesAll q b)) (books s)).
      split; [reflexivity|]. split; [|split; [|split]].
      * rewrite <- (sort_perm localeCompare). apply filter_partition.
      * intros b Hb.
        apply (Permutation_in _ (Permutation_sym (sort_perm _ _))) in Hb.
        apply filter_In in Hb as (_ & Hb). unfold passesAll in Hb.
        apply andb_true_iff in Hb as (H1 & H2).
        split; [now apply Hm, passesGenres_iff | now apply passesRest_iff].
      * intros b Hb (H1 & H2). apply filter_In in Hb as (_ & Hb).
        apply negb_true_iff in Hb. unfold passesAll in Hb.
        apply Hm, passesGenres_iff in H1. apply passesRest_iff in H2.
        rewrite H1, H2 in Hb. discriminate.
      * exact (sort_sorted localeCompare localeCompare_total _).
Qed.

End Genres.

Lemma filteredList_by_genres_witness :
  let s := fst (run codeUnitCompare initial
             [Create "Emma" "Jane Austen" (JS.ofZ 1950) (JS.ofZ 12)
                     ["NOVEL"; "ROMANCE"];
              Create "Dune" "Frank Herbert" (JS.ofZ 1965) (JS.ofZ 30)
                     ["SCI_FI"];
              Create "SPQR" "Mary Beard" (JS.ofZ 2015) (JS.ofZ 20)
                     ["HISTORY"]]) in
  let q := Query.mk None None None None None (Some "SCI_FI,NOVEL") in
  (exists l rest,
     filteredList codeUnitCompare s q =
       (s, Ok (map (fun b => View.mk (Book.id b) (Book.title b)
                                     (Book.author b) (Book.price b)
                                     (Book.year b) (Book.genres b))
                   l)) /\
     Permutation (l ++ rest) (books s) /\
     (forall b, In b l ->
        sharesGenre ["SCI_FI"; "NOVEL"] b /\ meetsRest q b) /\
     (forall b, In b rest ->
        ~ (sharesGenre ["SCI_FI"; "NOVEL"] b /\ meetsRest q b)) /\
     Sorted (fun x y =>
               codeUnitCompare (JS.toLowerCase (Book.title x))
                               (JS.toLowerCase (Book.title y)) <= 0)
            l) /\
  filteredList codeUnitCompare s
    (Query.mk None None None None None (Some "NOVEL,COMICS"))
  = (s, Err InvalidGenre).
Proof.
  intros s q.
  assert (Hn : forall t, In t ["SCI_FI"; "NOVEL"; "COMICS"] -> noComma t).
  { intros t [<-|[<-|[<-|[]]]]; unfold noComma; simpl;
      intros H; repeat (destruct H as [H|H]; [discriminate H|]);
      contradiction. }
  split.
  - apply (proj2 (proj2 (filteredList_by_genres codeUnitCompare
                           codeUnitCompare_total s "SCI_FI,NOVEL"
                           None None None None None))
             ltac:(discriminate) ["SCI_FI"; "NOVEL"]).
    + discriminate.
    + repeat constructor; apply Hn; simpl; auto.
    + reflexivity.
    + intros t [<-|[<-|[]]]; simpl; auto.
  - apply (proj2 (proj2 (filteredList_by_genres codeUnitCompare
                           codeUnitCompare_total s "NOVEL,COMICS"
                           None None None None None))
             ltac:(discriminate) ["NOVEL"; "COMICS"]).
    + discriminate.
    + repeat constructor; apply Hn; simpl; auto.
    + reflexivity.
    + exists "COMICS". split; [simpl; auto|].
      simpl. intros H.
      repeat (destruct H as [H|H]; [discriminate H|]). contradiction.
Defined.
